(** * Turtle Pong: a shallow embedding of [pong.py] and its checked properties

    Numbers.  Python [int]s are unbounded and are modelled by [Z].  Python
    [float]s are modelled by the real numbers [R].  The coordinates of the
    paddles are small integers and halves, exact in binary floating point;
    the ball's trajectory uses [cos] and [sin], taken here as the real
    functions the code approximates, so what is proved about the ball holds
    up to floating-point rounding.

    Objects.  Each class is a record; a subclass embeds its parent record.
    The objects [main] creates live in one [World.t] store, so that the ball's
    list of paddles and the loop's list of objects name the same paddles.

    Effects.  The turtle calls of a [draw] method are one [Event]; [sleep] is
    an event too.  [randint] reads a stream of raw integers.  Python
    exceptions ([ZeroDivisionError], [IndexError], [ValueError]) are [None]. *)

From Stdlib Require Import String Reals ZArith List Bool Lra Lia.
Import ListNotations.

Open Scope R_scope.

(** ** Python arithmetic *)

(** [int(x)] on a float truncates towards zero. *)
Definition py_int (r : R) : Z :=
  if Rle_dec 0 r then Zfloor r else Zceil r.

(** Comparisons of floats as the booleans Python's [and] / [or] combine. *)
Definition Rleb (a b : R) : bool := if Rle_dec a b then true else false.
Definition Rltb (a b : R) : bool := if Rlt_dec a b then true else false.
Definition Rgeb (a b : R) : bool := if Rge_dec a b then true else false.
Definition Rgtb (a b : R) : bool := if Rgt_dec a b then true else false.

(** [a / b] on floats raises [ZeroDivisionError] when [b] is zero. *)
Definition py_div (a b : R) : option R :=
  if Req_dec_T b 0 then None else Some (a / b).

(** [a % m] on numbers with a positive modulus: the result is in [0, m). *)
Definition py_mod (a m : R) : R := a - m * IZR (Zfloor (a / m)).

(** [math.radians]. *)
Definition radians (deg : R) : R := deg * PI / 180.

(** ** Module-level constants *)

Definition WIDTH : Z := 600.
Definition HEIGHT : Z := 600.
Definition RIGHT : Z := py_int (IZR WIDTH / 2).
Definition LEFT : Z := (- RIGHT)%Z.
Definition TOP : Z := py_int (IZR HEIGHT / 2).
Definition BOTTOM : Z := (- TOP)%Z.

Definition BALL_SIZE : Z := 12.
Definition BALL_SPEED : Z := 10.
Definition BALL_SPEED_INCREASE : R := 25 / 100.

Definition PADDLE_WIDTH : Z := 80.
Definition PADDLE_HEIGHT : Z := 10.
Definition PADDLE_SPEED : Z := 8.
Definition PADDLE_DIST_FROM_BORDER : Z := 50.
Definition PADDLE_BOUNDARY : Z := 5.
Definition TOP_PADDLE_Y : Z := (py_int (IZR HEIGHT / 2) - PADDLE_DIST_FROM_BORDER)%Z.
Definition BOTTOM_PADDLE_Y : Z := (- TOP_PADDLE_Y)%Z.

Definition BOUNCE_SHARPNESS : Z := 90.
Definition BOUNCE_RAND_FACTOR : Z := 25.

Definition AI_VISIBILITY_RANGE : Z := py_int (IZR HEIGHT / (18 / 10)).
Definition AI_PADDLE_SPEED : Z := 5.

(** ** Rendering and timing events *)

(** [Hitbox = Tuple[float, float, float, float]], read as
    [min_x, max_x, min_y, max_y]; the fields are the tuple's indices 0 to 3. *)
Record Hitbox : Type := mkHitbox
  { min_x : R; max_x : R; min_y : R; max_y : R }.

Inductive Event : Type :=
| DrawRect (hb : Hitbox) (w h : Z)   (* Sprite.draw *)
| DrawText (n : Z)                   (* Scorekeeper.draw *)
| Sleep.                             (* sleep(.5) in Ball.reset *)

Definition is_draw (e : Event) : bool :=
  match e with
  | DrawRect _ _ _ | DrawText _ => true
  | Sleep => false
  end.

(** Number of draw calls in a trace. *)
Definition draw_calls (tr : list Event) : nat := List.length (filter is_draw tr).

(** ** The random source *)

Module Random.

(** A stream of raw integers and the number of values consumed so far. *)
Record t : Type := mk { entropy : nat -> Z; drawn : nat }.

(** [randint(a, b)]: an integer N with [a <= N <= b]; [ValueError] on an
    empty range. *)
Definition randint (a b : Z) (g : t) : option (Z * t) :=
  if (a <=? b)%Z
  then Some ((a + (entropy g (drawn g)) mod (b - a + 1))%Z,
             mk (entropy g) (S (drawn g)))
  else None.

End Random.

(** ** class Sprite *)

Module Sprite.

Record t : Type := mk
  { width : Z; height : Z; x : R; y : R; hitbox : Hitbox; changed : bool }.

Definition set_x (s : t) (v : R) : t :=
  mk (width s) (height s) v (y s) (hitbox s) (changed s).
Definition set_y (s : t) (v : R) : t :=
  mk (width s) (height s) (x s) v (hitbox s) (changed s).
Definition set_hitbox (s : t) (v : Hitbox) : t :=
  mk (width s) (height s) (x s) (y s) v (changed s).
Definition set_changed (s : t) (v : bool) : t :=
  mk (width s) (height s) (x s) (y s) (hitbox s) v.

(** The tuple both [__init__] and [update_hitbox] compute. *)
Definition box (w h : Z) (cx cy : R) : Hitbox :=
  mkHitbox (cx - IZR w / 2) (cx + IZR w / 2) (cy - IZR h / 2) (cy + IZR h / 2).

Definition init (w h : Z) (cx cy : R) : t :=
  mk w h cx cy (box w h cx cy) true.

Definition update_hitbox (s : t) : t :=
  set_hitbox s (box (width s) (height s) (x s) (y s)).

Definition draw (s : t) : Event := DrawRect (hitbox s) (width s) (height s).

End Sprite.

(** Subclasses of [Sprite]: access to the inherited fields and the [draw]
    method that dynamic dispatch selects. *)
Class SpriteLike (T : Type) : Type :=
  { sprite : T -> Sprite.t;
    with_sprite : T -> Sprite.t -> T;
    draw : T -> Event }.

#[global] Instance Sprite_SpriteLike : SpriteLike Sprite.t :=
  { sprite := fun s => s; with_sprite := fun _ s => s; draw := Sprite.draw }.

Section SpriteMethods.
Context {T : Type} `{SpriteLike T}.

Definition update_hitbox (o : T) : T :=
  with_sprite o (Sprite.update_hitbox (sprite o)).

Definition mark (o : T) (v : bool) : T :=
  with_sprite o (Sprite.set_changed (sprite o) v).

(** [Sprite.update]: refresh the hitbox and render when [changed]. *)
Definition Sprite_update (o : T) : T * list Event :=
  if Sprite.changed (sprite o)
  then let o1 := update_hitbox o in (mark o1 false, [draw o1])
  else (o, []).
End SpriteMethods.

(** ** class Scorekeeper(Sprite) *)

Module Scorekeeper.

Record t : Type := mk { base : Sprite.t; score : Z }.

Definition init (cx cy : R) : t := mk (Sprite.init 0 0 cx cy) 0.

Definition draw (s : t) : Event := DrawText (score s).

Definition scored (s : t) : t :=
  mk (Sprite.set_changed (base s) true) (score s + 1).

#[global] Instance Scorekeeper_SpriteLike : SpriteLike t :=
  { sprite := base; with_sprite := fun s b => mk b (score s); draw := draw }.

(** [update] is inherited from [Sprite]. *)
Definition update (s : t) : t * list Event := Sprite_update s.

End Scorekeeper.

(** ** class Paddle(Sprite) *)

Module Paddle.

Record t : Type := mk
  { base : Sprite.t; shift : Z; moving_left : bool; moving_right : bool }.

#[global] Instance Paddle_SpriteLike : SpriteLike t :=
  { sprite := base;
    with_sprite := fun p b => mk b (shift p) (moving_left p) (moving_right p);
    draw := fun p => Sprite.draw (base p) }.

Definition set_shift (p : t) (v : Z) : t :=
  mk (base p) v (moving_left p) (moving_right p).
Definition set_moving_left (p : t) (v : bool) : t :=
  mk (base p) (shift p) v (moving_right p).
Definition set_moving_right (p : t) (v : bool) : t :=
  mk (base p) (shift p) (moving_left p) v.
Definition move (p : t) (dx : R) : t :=
  with_sprite p (Sprite.set_x (base p) (Sprite.x (base p) + dx)).

Definition init (w h : Z) (cx cy : R) (speed : Z) : t :=
  mk (Sprite.init w h cx cy) speed false false.

(** [if self.hitbox[0] > -WIDTH/2 + PADDLE_BOUNDARY: self.x -= self.shift] *)
Definition left (p : t) : t :=
  if Rgtb (min_x (Sprite.hitbox (base p)))
          (- IZR WIDTH / 2 + IZR PADDLE_BOUNDARY)
  then move p (- IZR (shift p)) else p.

(** [if self.hitbox[1] < WIDTH/2 - PADDLE_BOUNDARY: self.x += self.shift] *)
Definition right (p : t) : t :=
  if Rltb (max_x (Sprite.hitbox (base p)))
          (IZR WIDTH / 2 - IZR PADDLE_BOUNDARY)
  then move p (IZR (shift p)) else p.

Definition start_left (p : t) : t := set_moving_left p true.
Definition start_right (p : t) : t := set_moving_right p true.
Definition stop_left (p : t) : t := set_moving_left p false.
Definition stop_right (p : t) : t := set_moving_right p false.

(** The [if moving_left ... elif moving_right ...] statement of [update]. *)
Definition steer (p : t) : t :=
  if moving_left p then mark (left p) true
  else if moving_right p then mark (right p) true
  else p.

(** [Paddle.update]: move, then refresh and render when [changed]; the
    flag is cleared in every case.  [self.t.clear()] erases the turtle's
    earlier drawing and is part of the draw event. *)
Definition update (p : t) : t * list Event :=
  let p1 := steer p in
  if Sprite.changed (base p1)
  then let p2 := update_hitbox p1 in (mark p2 false, [draw p2])
  else (mark p1 false, []).

End Paddle.

(** ** class PlayerPaddle(Paddle) *)

Module PlayerPaddle.

(** [left_button] and [right_button] name the keys [key_listen] binds to
    [start_left], [stop_left], [start_right] and [stop_right].  The
    bindings live in the screen; [listening] records that they were made. *)
Record t : Type := mk
  { base : Paddle.t; left_button : string; right_button : string;
    listening : bool }.

Definition init (w h : Z) (cx cy : R) (speed : Z) (lb rb : string) : t :=
  mk (Paddle.init w h cx cy speed) lb rb false.

(** The four handlers a key event can call. *)
Inductive Intent : Type := StartLeft | StopLeft | StartRight | StopRight.

(** A key event: it reaches its handler once the keys are bound. *)
Definition handle (i : Intent) (p : t) : t :=
  let f := match i with
           | StartLeft => Paddle.start_left
           | StopLeft => Paddle.stop_left
           | StartRight => Paddle.start_right
           | StopRight => Paddle.stop_right
           end in
  if listening p
  then mk (f (base p)) (left_button p) (right_button p) true
  else p.

(** [key_listen(); super().update()] *)
Definition update (p : t) : t * list Event :=
  let (b, ev) := Paddle.update (base p) in
  (mk b (left_button p) (right_button p) true, ev).

End PlayerPaddle.

(** ** A state and exception monad for the methods of [Ball] *)

Definition M (S A : Type) : Type := S -> option (A * S).

Definition ret {S A : Type} (a : A) : M S A := fun s => Some (a, s).
Definition bind {S A B : Type} (m : M S A) (k : A -> M S B) : M S B :=
  fun s => match m s with
           | Some (a, s1) => k a s1
           | None => None
           end.
Definition get {S : Type} : M S S := fun s => Some (s, s).
Definition modify {S : Type} (f : S -> S) : M S unit := fun s => Some (tt, f s).
Definition lift_opt {S A : Type} (o : option A) : M S A :=
  fun s => match o with Some a => Some (a, s) | None => None end.

Declare Scope monad_scope.
Delimit Scope monad_scope with monad.
Notation "x <- m ;; k" := (bind m (fun x => k))
  (at level 61, m at next level, right associativity) : monad_scope.
Notation "m ;;; k" := (bind m (fun _ => k))
  (at level 61, right associativity) : monad_scope.

(** [for x in xs: body x]. *)
Fixpoint for_each {S A : Type} (xs : list A) (body : A -> M S unit) : M S unit :=
  match xs with
  | [] => ret tt
  | x :: rest => bind (body x) (fun _ => for_each rest body)
  end.

(** [xs[i] = f(xs[i])]; [IndexError] when [i] is out of range. *)
Fixpoint update_at {A : Type} (i : nat) (f : A -> A) (xs : list A)
  : option (list A) :=
  match xs, i with
  | [], _ => None
  | a :: rest, O => Some (f a :: rest)
  | a :: rest, S j => option_map (cons a) (update_at j f rest)
  end.

(** ** class Ball(Sprite) *)

Module Ball.

Record t : Type := mk
  { base : Sprite.t; dir : R; base_speed : Z; shift : R; bounces : Z }.

#[global] Instance Ball_SpriteLike : SpriteLike t :=
  { sprite := base;
    with_sprite := fun b s => mk s (dir b) (base_speed b) (shift b) (bounces b);
    draw := fun b => Sprite.draw (base b) }.

Definition set_dir (b : t) (v : R) : t :=
  mk (base b) v (base_speed b) (shift b) (bounces b).
Definition set_shift (b : t) (v : R) : t :=
  mk (base b) (dir b) (base_speed b) v (bounces b).
Definition set_bounces (b : t) (v : Z) : t :=
  mk (base b) (dir b) (base_speed b) (shift b) v.
Definition set_pos (b : t) (vx vy : R) : t :=
  with_sprite b (Sprite.set_y (Sprite.set_x (base b) vx) vy).

(** What a method of the ball can touch: the ball itself, the scorekeepers
    it holds references to, the random source and the rendering trace. *)
Record env : Type := mkEnv
  { self : t; scores : list Scorekeeper.t; rng : Random.t; trace : list Event }.

Definition on_self (f : t -> t) : M env unit :=
  modify (fun e => mkEnv (f (self e)) (scores e) (rng e) (trace e)).
Definition emit (ev : t -> Event) : M env unit :=
  modify (fun e => mkEnv (self e) (scores e) (rng e) (trace e ++ [ev (self e)])).
Definition randint (a b : Z) : M env Z :=
  fun e => match Random.randint a b (rng e) with
           | Some (n, g) => Some (n, mkEnv (self e) (scores e) g (trace e))
           | None => None
           end.
(** [self.scores[i].scored()] *)
Definition credit (i : nat) : M env unit :=
  fun e => match update_at i Scorekeeper.scored (scores e) with
           | Some ss => Some (tt, mkEnv (self e) ss (rng e) (trace e))
           | None => None
           end.

Open Scope monad_scope.

Definition rand_dir : M env unit :=
  d <- randint 25 155 ;;
  on_self (fun b => set_dir b (IZR d)) ;;;
  c <- randint 0 1 ;;
  if (c =? 1)%Z then on_self (fun b => set_dir b (dir b + 180)) else ret tt.

Definition reset : M env unit :=
  on_self (fun b => set_pos b 0 0) ;;;
  on_self (fun b => set_bounces b 0) ;;;
  on_self (fun b => set_shift b (IZR (base_speed b))) ;;;
  rand_dir ;;;
  on_self update_hitbox ;;;
  emit draw ;;;
  emit (fun _ => Sleep).

(** The test of the paddle loop on the two hitboxes: the ball's box [hb]
    straddles the paddle's top edge and meets the paddle's span. *)
Definition overlap (hb hp : Hitbox) : bool :=
  Rleb (min_y hb) (max_y hp) && Rgeb (max_y hb) (max_y hp)
  && Rleb (min_x hb) (max_x hp) && Rgeb (max_x hb) (min_x hp).

Definition hits (b : t) (p : Paddle.t) : bool :=
  overlap (Sprite.hitbox (base b)) (Sprite.hitbox (Paddle.base p)).

(** [BOUNCE_SHARPNESS * ((paddle.x-self.x)/2)/((paddle.width/2))] *)
Definition deflection (b : t) (p : Paddle.t) : option R :=
  py_div (IZR BOUNCE_SHARPNESS
          * ((Sprite.x (Paddle.base p) - Sprite.x (base b)) / 2))
         (IZR (Sprite.width (Paddle.base p)) / 2).

(** The body of [for paddle in self.paddles]. *)
Definition bounce_off (p : Paddle.t) : M env unit :=
  e <- get ;;
  if hits (self e) p then
    on_self (fun b => set_bounces b (bounces b + 1)) ;;;
    b <- get ;;
    k <- lift_opt (deflection (self b) p) ;;
    j <- randint (- BOUNCE_RAND_FACTOR) BOUNCE_RAND_FACTOR ;;
    if Rltb (Sprite.y (Paddle.base p)) 0
    then on_self (fun b => set_dir b (90 + k + IZR j))
    else on_self (fun b => set_dir b (270 - k + IZR j))
  else ret tt.

Definition at_wall (b : t) : bool :=
  Rleb (min_x (Sprite.hitbox (base b))) (IZR LEFT)
  || Rgeb (max_x (Sprite.hitbox (base b))) (IZR RIGHT).
Definition at_bottom_goal (b : t) : bool :=
  Rleb (min_y (Sprite.hitbox (base b))) (IZR (BOTTOM + 10)).
Definition at_top_goal (b : t) : bool :=
  Rgeb (max_y (Sprite.hitbox (base b))) (IZR TOP).

(** The [if ... elif ... elif ...] statement of [check_collisions]; the
    empty tests on [score >= 9] are omitted. *)
Definition walls_and_goals : M env unit :=
  e <- get ;;
  if at_wall (self e) then
    on_self (fun b => set_dir b (180 - py_mod (dir b) 360))
  else if at_bottom_goal (self e) then
    on_self (fun b => set_dir b (360 - py_mod (dir b) 360)) ;;;
    credit 0 ;;;
    reset
  else if at_top_goal (self e) then
    on_self (fun b => set_dir b (360 - py_mod (dir b) 360)) ;;;
    credit 1 ;;;
    reset
  else ret tt.

Definition check_collisions (paddles : list Paddle.t) : M env unit :=
  walls_and_goals ;;;
  for_each paddles bounce_off.

(** [super().update()] on the ball. *)
Definition refresh : M env unit :=
  fun e => let (b, ev) := Sprite_update (self e) in
           Some (tt, mkEnv b (scores e) (rng e) (trace e ++ ev)).

Definition update (paddles : list Paddle.t) : M env unit :=
  check_collisions paddles ;;;
  on_self (fun b =>
    set_shift b (IZR (base_speed b) + IZR (bounces b) * BALL_SPEED_INCREASE)) ;;;
  on_self (fun b =>
    set_pos b (Sprite.x (base b) + shift b * cos (radians (dir b)))
              (Sprite.y (base b))) ;;;
  on_self (fun b =>
    set_pos b (Sprite.x (base b))
              (Sprite.y (base b) + shift b * sin (radians (dir b)))) ;;;
  on_self (fun b => mark b true) ;;;
  refresh.

(** [Ball.__init__]; the references to paddles and scorekeepers are held by
    the world. *)
Definition init (size speed : Z) (ss : list Scorekeeper.t) (g : Random.t)
  : option env :=
  let b0 := mk (Sprite.init size size 0 0) 0 0 0 0 in
  match rand_dir (mkEnv b0 ss g []) with
  | Some (_, e) =>
      Some (mkEnv (mk (base (self e)) (dir (self e)) speed (IZR speed) 0)
                  (scores e) (rng e) (trace e))
  | None => None
  end.

Close Scope monad_scope.

End Ball.

(** ** class AIPaddle(Paddle) *)

Module AIPaddle.

Record t : Type := mk
  { base : Paddle.t; base_speed : Z; sees_ball : bool; rand_dir_set : bool }.

Definition on_base (f : Paddle.t -> Paddle.t) (a : t) : t :=
  mk (f (base a)) (base_speed a) (sees_ball a) (rand_dir_set a).
Definition set_sees_ball (a : t) (v : bool) : t :=
  mk (base a) (base_speed a) v (rand_dir_set a).
Definition set_rand_dir_set (a : t) (v : bool) : t :=
  mk (base a) (base_speed a) (sees_ball a) v.

(** The class attributes give [sees_ball = True], [rand_dir_set = False]. *)
Definition init (w h : Z) (cx cy : R) (speed : Z) : t :=
  mk (Paddle.init w h cx cy speed) speed true false.

Definition go_left (a : t) : t :=
  on_base Paddle.stop_right (on_base Paddle.start_left a).
Definition go_right (a : t) : t :=
  on_base Paddle.stop_left (on_base Paddle.start_right a).

(** [set_dir]: steer towards the ball [b], or stand still when aligned. *)
Definition set_dir (b : Ball.t) (a : t) : t :=
  let ax := Sprite.x (Paddle.base (base a)) in
  let bx := Sprite.x (Ball.base b) in
  if Rltb (Rabs (ax - bx)) (15 / 10 * IZR (base_speed a))
  then on_base (fun p => Paddle.set_shift p 0) a
  else if Rgtb ax bx then go_left a
  else go_right a.

(** [rand_dir]: a random speed and a random side. *)
Definition rand_dir (a : t) (g : Random.t) : option (t * Random.t) :=
  match Random.randint 0 (base_speed a) g with
  | Some (v, g1) =>
      let a1 := on_base (fun p => Paddle.set_shift p v) a in
      match Random.randint 0 1 g1 with
      | Some (c, g2) =>
          Some (if (c =? 1)%Z then go_left a1 else go_right a1, g2)
      | None => None
      end
  | None => None
  end.

(** The part of [update] that chooses speed and intents. *)
Definition decide (b : Ball.t) (a : t) (g : Random.t) : option (t * Random.t) :=
  let a1 :=
    set_sees_ball a
      (Rltb (Rabs (Sprite.y (Paddle.base (base a)) - Sprite.y (Ball.base b)))
            (IZR AI_VISIBILITY_RANGE)) in
  if sees_ball a1 then
    let a2 := on_base (fun p => Paddle.set_shift p (base_speed a1)) a1 in
    Some (set_rand_dir_set (set_dir b a2) false, g)
  else if negb (rand_dir_set a1) then
    match rand_dir a1 g with
    | Some (a2, g1) => Some (set_rand_dir_set a2 true, g1)
    | None => None
    end
  else Some (a1, g).

(** The two [if] statements of [update] that move the paddle before the
    call of [super().update()]. *)
Definition premove (p : Paddle.t) : Paddle.t :=
  let p1 := if Paddle.moving_left p then mark (Paddle.left p) true else p in
  if Paddle.moving_right p1 then mark (Paddle.right p1) true else p1.

Definition update (b : Ball.t) (a : t) (g : Random.t)
  : option (t * Random.t * list Event) :=
  match decide b a g with
  | Some (a1, g1) =>
      let (p, ev) := Paddle.update (premove (base a1)) in
      Some (mk p (base_speed a1) (sees_ball a1) (rand_dir_set a1), g1, ev)
  | None => None
  end.

End AIPaddle.

(** ** The objects of [main] and the game loop *)

Module World.

Inductive PaddleObj : Type :=
| Player (p : PlayerPaddle.t)
| AI (a : AIPaddle.t).

(** The [Paddle] fields every paddle object has. *)
Definition as_paddle (o : PaddleObj) : Paddle.t :=
  match o with
  | Player p => PlayerPaddle.base p
  | AI a => AIPaddle.base a
  end.

Record t : Type := mk
  { ball : Ball.t;
    paddles : list PaddleObj;
    scores : list Scorekeeper.t;
    rng : Random.t;
    trace : list Event }.

(** [main] up to the loop. *)
Definition main (g : Random.t) : option t :=
  let paddle1 :=
    PlayerPaddle.init PADDLE_WIDTH PADDLE_HEIGHT 0 (IZR TOP_PADDLE_Y)
                      PADDLE_SPEED "Left" "Right" in
  let paddle2 :=
    AIPaddle.init PADDLE_WIDTH PADDLE_HEIGHT 0 (IZR BOTTOM_PADDLE_Y)
                  AI_PADDLE_SPEED in
  let score1 := Scorekeeper.init (- IZR WIDTH / 2 + 50) 100 in
  let score2 := Scorekeeper.init (- IZR WIDTH / 2 + 50) (- 100) in
  match Ball.init BALL_SIZE BALL_SPEED [score1; score2] g with
  | Some e =>
      Some (mk (Ball.self e) [Player paddle1; AI paddle2]
               (Ball.scores e) (Ball.rng e) (Ball.trace e))
  | None => None
  end.

(** [ball.update()] *)
Definition update_ball (w : t) : option t :=
  match Ball.update (map as_paddle (paddles w))
                    (Ball.mkEnv (ball w) (scores w) (rng w) (trace w)) with
  | Some (_, e) =>
      Some (mk (Ball.self e) (paddles w) (Ball.scores e) (Ball.rng e)
               (Ball.trace e))
  | None => None
  end.

(** [obj.update()] on one paddle, by its class. *)
Definition update_paddle (b : Ball.t) (o : PaddleObj) (g : Random.t)
  : option (PaddleObj * Random.t * list Event) :=
  match o with
  | Player p => let (p1, ev) := PlayerPaddle.update p in Some (Player p1, g, ev)
  | AI a =>
      match AIPaddle.update b a g with
      | Some (a1, g1, ev) => Some (AI a1, g1, ev)
      | None => None
      end
  end.

Fixpoint update_paddles (b : Ball.t) (os : list PaddleObj) (g : Random.t)
  : option (list PaddleObj * Random.t * list Event) :=
  match os with
  | [] => Some ([], g, [])
  | o :: rest =>
      match update_paddle b o g with
      | Some (o1, g1, ev1) =>
          match update_paddles b rest g1 with
          | Some (rest1, g2, ev2) => Some (o1 :: rest1, g2, ev1 ++ ev2)
          | None => None
          end
      | None => None
      end
  end.

Fixpoint update_scores (ss : list Scorekeeper.t)
  : list Scorekeeper.t * list Event :=
  match ss with
  | [] => ([], [])
  | s :: rest =>
      let (s1, ev1) := Scorekeeper.update s in
      let (rest1, ev2) := update_scores rest in
      (s1 :: rest1, ev1 ++ ev2)
  end.

(** One pass of [for obj in objects: obj.update()], the objects being the
    ball, the paddles and the scorekeepers in this order. *)
Definition tick (w : t) : option t :=
  match update_ball w with
  | Some w1 =>
      match update_paddles (ball w1) (paddles w1) (rng w1) with
      | Some (ps, g, ev) =>
          let (ss, ev') := update_scores (scores w1) in
          Some (mk (ball w1) ps ss g (trace w1 ++ ev ++ ev'))
      | None => None
      end
  | None => None
  end.

(** A key event reaching the handlers of the [n]-th paddle. *)
Definition key (n : nat) (i : PlayerPaddle.Intent) (w : t) : t :=
  let f o := match o with
             | Player p => Player (PlayerPaddle.handle i p)
             | AI a => AI a
             end in
  match update_at n f (paddles w) with
  | Some ps => mk (ball w) ps (scores w) (rng w) (trace w)
  | None => w
  end.

(** States of the game: after [main]'s set-up, after a key event, after a
    pass of the loop. *)
Inductive reachable : t -> Prop :=
| reach_main : forall g w, main g = Some w -> reachable w
| reach_key : forall w n i, reachable w -> reachable (key n i w)
| reach_tick : forall w w', reachable w -> tick w = Some w' -> reachable w'.

End World.

(** ** The turtle of a sprite *)

(** The part of a [turtle.Turtle] that [Sprite.draw] and [Scorekeeper.draw]
    use, in the standard mode the program runs in: headings in degrees,
    counter-clockwise from east.  The state records the position, the
    heading (up to whole turns), the pen, the path of the fill being
    recorded, and what is on the canvas: line segments, filled polygons and
    written numbers. *)
Module Turtle.

Definition Point : Type := (R * R)%type.

Record t : Type := mk
  { pos : Point;
    heading : R;
    pen : bool;
    fillpath : option (list Point);
    lines : list (Point * Point);
    filled : list (list Point);
    texts : list Z }.

(** [Turtle()] followed by [penup()], as [Sprite.__init__] leaves it. *)
Definition init : t := mk (0, 0) 0 false None [] [] [].

(** [clear]: the drawings go, a fill being recorded is dropped; position,
    heading and pen stay. *)
Definition clear (tu : t) : t :=
  mk (pos tu) (heading tu) (pen tu) None [] [] [].

(** [goto]: a segment is drawn when the pen is down, the end point joins the
    fill path when one is being recorded. *)
Definition goto (x y : R) (tu : t) : t :=
  mk (x, y) (heading tu) (pen tu)
     (match fillpath tu with
      | Some path => Some (path ++ [(x, y)])
      | None => None
      end)
     (if pen tu then lines tu ++ [(pos tu, (x, y))] else lines tu)
     (filled tu) (texts tu).

Definition setheading (a : R) (tu : t) : t :=
  mk (pos tu) a (pen tu) (fillpath tu) (lines tu) (filled tu) (texts tu).

Definition set_pen (v : bool) (tu : t) : t :=
  mk (pos tu) (heading tu) v (fillpath tu) (lines tu) (filled tu) (texts tu).

Definition pendown : t -> t := set_pen true.
Definition penup : t -> t := set_pen false.

Definition begin_fill (tu : t) : t :=
  mk (pos tu) (heading tu) (pen tu) (Some [pos tu]) (lines tu) (filled tu)
     (texts tu).

(** [end_fill]: a recorded path of more than two points is filled. *)
Definition end_fill (tu : t) : t :=
  mk (pos tu) (heading tu) (pen tu) None (lines tu)
     (match fillpath tu with
      | Some path =>
          if (2 <? List.length path)%nat then filled tu ++ [path]
          else filled tu
      | None => filled tu
      end)
     (texts tu).

Definition forward (d : R) (tu : t) : t :=
  goto (fst (pos tu) + d * cos (radians (heading tu)))
       (snd (pos tu) + d * sin (radians (heading tu))) tu.

Definition right (a : R) (tu : t) : t := setheading (heading tu - a) tu.

(** [write(arg, move=False)]. *)
Definition write (n : Z) (tu : t) : t :=
  mk (pos tu) (heading tu) (pen tu) (fillpath tu) (lines tu) (filled tu)
     (texts tu ++ [n]).

(** One pass of the loop of [Sprite.draw]. *)
Definition two_sides (w h : Z) (tu : t) : t :=
  right 90 (forward (IZR w) (right 90 (forward (IZR h) tu))).

(** [Sprite.draw], on the hitbox, width and height the sprite has. *)
Definition draw_rect (hb : Hitbox) (w h : Z) (tu : t) : t :=
  let tu := clear tu in
  let tu := goto (min_x hb) (min_y hb) tu in
  let tu := setheading 90 tu in
  let tu := pendown tu in
  let tu := begin_fill tu in
  let tu := penup tu in
  let tu := two_sides w h (two_sides w h tu) in
  end_fill tu.

(** [Scorekeeper.draw]. *)
Definition draw_text (n : Z) (tu : t) : t := write n (clear tu).

(** What a drawing event does to the turtle of the sprite it comes from. *)
Definition render (e : Event) (tu : t) : t :=
  match e with
  | DrawRect hb w h => draw_rect hb w h tu
  | DrawText n => draw_text n tu
  | Sleep => tu
  end.

Definition render_all (evs : list Event) (tu : t) : t :=
  fold_left (fun tu e => render e tu) evs tu.

End Turtle.

(** * Vocabulary of the properties *)

(** ** Paddles *)

(** The hitbox agrees with the position: what [update_hitbox] establishes. *)
Definition synced (s : Sprite.t) : Prop :=
  Sprite.hitbox s
  = Sprite.box (Sprite.width s) (Sprite.height s) (Sprite.x s) (Sprite.y s).

(** The two bounds [Paddle.left] and [Paddle.right] compare with. *)
Definition left_bound : R := - IZR WIDTH / 2 + IZR PADDLE_BOUNDARY.
Definition right_bound : R := IZR WIDTH / 2 - IZR PADDLE_BOUNDARY.

(** The player's paddle of [main]: 80 wide, moving by 8 from [x = 0], so its
    centre stays on the grid of multiples of 8 between -256 and 256. *)
Definition on_grid (p : Paddle.t) : Prop :=
  Sprite.width (Paddle.base p) = PADDLE_WIDTH
  /\ Paddle.shift p = PADDLE_SPEED
  /\ synced (Paddle.base p)
  /\ exists k : Z, (-32 <= k <= 32)%Z /\ Sprite.x (Paddle.base p) = 8 * IZR k.

(** The division in the bounce formula is defined for this paddle. *)
Definition nonzero_width (p : Paddle.t) : Prop :=
  Sprite.width (Paddle.base p) <> 0%Z.

(** ** The ball *)

(** The launch directions: at least 25 degrees away from the x-axis. *)
Definition launch_dir (d : R) : Prop :=
  (25 <= d <= 155) \/ (205 <= d <= 335).

(** The ball as [reset] leaves it: centred, no bounces, base speed, hitbox
    refreshed, direction [d]. *)
Definition served (b : Ball.t) (d : R) : Ball.t :=
  let s := Ball.base b in
  Ball.mk (Sprite.mk (Sprite.width s) (Sprite.height s) 0 0
                     (Sprite.box (Sprite.width s) (Sprite.height s) 0 0)
                     (Sprite.changed s))
          d (Ball.base_speed b) (IZR (Ball.base_speed b)) 0.

(** The direction after a bounce off the paddle [p] with jitter [j]. *)
Definition bounce_dir (b : Ball.t) (p : Paddle.t) (j : Z) : R :=
  let offset := Sprite.x (Paddle.base p) - Sprite.x (Ball.base b) in
  let k := IZR BOUNCE_SHARPNESS * offset / IZR (Sprite.width (Paddle.base p)) in
  if Rltb (Sprite.y (Paddle.base p)) 0
  then 90 + k + IZR j
  else 270 - k + IZR j.

(** The ball's hitbox meets a side wall, or is clear of both. *)
Definition touches_wall (b : Ball.t) : Prop :=
  min_x (Sprite.hitbox (Ball.base b)) <= IZR LEFT
  \/ max_x (Sprite.hitbox (Ball.base b)) >= IZR RIGHT.

Definition clear_of_walls (b : Ball.t) : Prop :=
  IZR LEFT < min_x (Sprite.hitbox (Ball.base b))
  /\ max_x (Sprite.hitbox (Ball.base b)) < IZR RIGHT.

(** A goal branch of the collision check is taken: they are reached only
    away from the side walls. *)
Definition goal_taken (b : Ball.t) : bool :=
  negb (Ball.at_wall b) && (Ball.at_bottom_goal b || Ball.at_top_goal b).

(** No paddle meets a ball of the size of [b] centred at the origin. *)
Definition centre_free (b : Ball.t) (ps : list Paddle.t) : Prop :=
  Forall (fun p =>
            Ball.overlap (Sprite.box (Sprite.width (Ball.base b))
                                     (Sprite.height (Ball.base b)) 0 0)
                         (Sprite.hitbox (Paddle.base p)) = false) ps.

(** The ball after the speed update, the integration step and the refresh
    that follow the collision check in [Ball.update]. *)
Definition advance (b : Ball.t) : Ball.t :=
  let s := Ball.base b in
  let v := IZR (Ball.base_speed b) + IZR (Ball.bounces b) * BALL_SPEED_INCREASE in
  let x' := Sprite.x s + v * cos (radians (Ball.dir b)) in
  let y' := Sprite.y s + v * sin (radians (Ball.dir b)) in
  Ball.mk (Sprite.mk (Sprite.width s) (Sprite.height s) x' y'
                     (Sprite.box (Sprite.width s) (Sprite.height s) x' y') false)
          (Ball.dir b) (Ball.base_speed b) v (Ball.bounces b).

(** ** The game *)

(** A paddle stays on the line [main] put it on, 250 above or below the
    centre, with its hitbox in place. *)
Definition on_line (p : Paddle.t) : Prop :=
  Sprite.height (Paddle.base p) = PADDLE_HEIGHT
  /\ (Sprite.y (Paddle.base p) = 250 \/ Sprite.y (Paddle.base p) = -250)
  /\ synced (Paddle.base p).

Definition paddle_ok (o : World.PaddleObj) : Prop :=
  on_line (World.as_paddle o)
  /\ match o with
     | World.Player p => on_grid (PlayerPaddle.base p)
     | World.AI a =>
         nonzero_width (AIPaddle.base a) /\ (0 <= AIPaddle.base_speed a)%Z
     end.

(** Two states of the ball with the same width and height. *)
Definition same_size (b b' : Ball.t) : Prop :=
  Sprite.width (Ball.base b') = Sprite.width (Ball.base b)
  /\ Sprite.height (Ball.base b') = Sprite.height (Ball.base b).

(** The ball keeps the size [main] gave it. *)
Definition ball_ok (b : Ball.t) : Prop :=
  Sprite.width (Ball.base b) = BALL_SIZE
  /\ Sprite.height (Ball.base b) = BALL_SIZE.

(** What every state of the game satisfies: the paddles are on their lines,
    the players' paddles on their grid, no paddle is degenerate, the ball has
    its size and both scorekeepers exist. *)
Definition world_ok (w : World.t) : Prop :=
  Forall paddle_ok (World.paddles w)
  /\ ball_ok (World.ball w)
  /\ (2 <= List.length (World.scores w))%nat.

(** The player's paddle after [n] updates. *)
Fixpoint updates (n : nat) (p : PlayerPaddle.t) : PlayerPaddle.t :=
  match n with
  | O => p
  | S k => fst (PlayerPaddle.update (updates k p))
  end.

(** ** Concrete objects *)

(** A random source that yields zeros. *)
Definition zeros : Random.t := Random.mk (fun _ => 0%Z) 0.

(** The two scorekeepers of [main]. *)
Definition score1 : Scorekeeper.t := Scorekeeper.init (- IZR WIDTH / 2 + 50) 100.
Definition score2 : Scorekeeper.t := Scorekeeper.init (- IZR WIDTH / 2 + 50) (- 100).
Definition two_scores : list Scorekeeper.t := [score1; score2].

(** The paddles of [main] as the ball sees them at the start, at
    [TOP_PADDLE_Y = 250] and [BOTTOM_PADDLE_Y = -250]. *)
Definition top_paddle : Paddle.t :=
  Paddle.init PADDLE_WIDTH PADDLE_HEIGHT 0 250 PADDLE_SPEED.

Definition bottom_paddle : Paddle.t :=
  Paddle.init PADDLE_WIDTH PADDLE_HEIGHT 0 (- 250) AI_PADDLE_SPEED.

Definition start_paddles : list Paddle.t := [top_paddle; bottom_paddle].

(** The ball of [main] at [(cx, cy)] with direction [d], its hitbox in
    place, and what its methods can touch. *)
Definition ball_at (cx cy d : R) : Ball.t :=
  Ball.mk (Sprite.init BALL_SIZE BALL_SIZE cx cy) d BALL_SPEED (IZR BALL_SPEED) 0.

Definition env_at (cx cy d : R) : Ball.env :=
  Ball.mkEnv (ball_at cx cy d) two_scores zeros [].

(** In the bottom left corner: on the left wall and below the goal line. *)
Definition corner_env : Ball.env := env_at (-294) (-284) 225.

(** Below the bottom goal line, away from the walls. *)
Definition goal_env : Ball.env := env_at 0 (-289) 270.

(** In the middle of the arena. *)
Definition rally_env : Ball.env := env_at 0 0 90.

(** The two paddle objects of [main]. *)
Definition player_start : PlayerPaddle.t :=
  PlayerPaddle.init PADDLE_WIDTH PADDLE_HEIGHT 0 (IZR TOP_PADDLE_Y)
                    PADDLE_SPEED "Left" "Right".

Definition ai_start : AIPaddle.t :=
  AIPaddle.init PADDLE_WIDTH PADDLE_HEIGHT 0 (IZR BOTTOM_PADDLE_Y) AI_PADDLE_SPEED.

(** The player's paddle after the first pass of the loop, which binds the
    keys, and a press of the left key. *)
Definition player_left : PlayerPaddle.t :=
  PlayerPaddle.handle PlayerPaddle.StartLeft (updates 1 player_start).

(** A paddle with both keys held. *)
Definition both_keys : Paddle.t :=
  Paddle.start_right (Paddle.start_left top_paddle).

(** The state [main] sets up when the random source yields zeros: the ball
    is launched at 25 degrees. *)
Definition start_world : World.t :=
  World.mk (Ball.mk (Sprite.init BALL_SIZE BALL_SIZE 0 0) 25 BALL_SPEED
                    (IZR BALL_SPEED) 0)
           [World.Player player_start; World.AI ai_start]
           two_scores
           (Random.mk (fun _ => 0%Z) 2)
           [].

(** ** Further vocabulary *)

(** A run of [Paddle.update]s, the two intent flags set anew before each
    one: [(l, r)] stands for the flags the key events leave behind. *)
Fixpoint drive (keys : list (bool * bool)) (p : Paddle.t) : Paddle.t :=
  match keys with
  | [] => p
  | (l, r) :: rest =>
      drive rest
        (fst (Paddle.update (Paddle.set_moving_right (Paddle.set_moving_left p l) r)))
  end.

(** [n] goals credited to a scorekeeper. *)
Fixpoint scored_times (n : nat) (s : Scorekeeper.t) : Scorekeeper.t :=
  match n with
  | O => s
  | S k => Scorekeeper.scored (scored_times k s)
  end.

(** The number of paddles whose hitbox the ball's hitbox [hb] meets. *)
Definition count_hits (hb : Hitbox) (ps : list Paddle.t) : nat :=
  List.length
    (filter (fun p => Ball.overlap hb (Sprite.hitbox (Paddle.base p))) ps).

(** The ball's hitbox when the paddle loop starts: refreshed at the origin
    by a goal, untouched otherwise. *)
Definition hitbox_after_goals (b : Ball.t) : Hitbox :=
  if goal_taken b
  then Sprite.box (Sprite.width (Ball.base b)) (Sprite.height (Ball.base b)) 0 0
  else Sprite.hitbox (Ball.base b).

(** The sum of the scores. *)
Definition total_score (ss : list Scorekeeper.t) : Z :=
  fold_right (fun s acc => (Scorekeeper.score s + acc)%Z) 0%Z ss.

(** The direction the wall branch of the collision check computes. *)
Definition wall_reflect (theta : R) : R := 180 - py_mod theta 360.

(** The two tests of [AIPaddle.update] and [AIPaddle.set_dir] on the ball
    [b]: the ball is in sight; the paddle is level with it. *)
Definition ai_sees (b : Ball.t) (a : AIPaddle.t) : Prop :=
  Rabs (Sprite.y (Paddle.base (AIPaddle.base a)) - Sprite.y (Ball.base b))
  < IZR AI_VISIBILITY_RANGE.

Definition ai_aligned (b : Ball.t) (a : AIPaddle.t) : Prop :=
  Rabs (Sprite.x (Paddle.base (AIPaddle.base a)) - Sprite.x (Ball.base b))
  < 15 / 10 * IZR (AIPaddle.base_speed a).

(** What one [AIPaddle.update] adds to the position of a paddle with the
    fields of [p] once speed and intents are chosen: the shifts of its own
    two [if]s and the shift of [Paddle.update], all tested against the
    hitbox of [p]. *)
Definition ai_displacement (p : Paddle.t) : R :=
  let dl := if Paddle.moving_left p
            then if Rgtb (min_x (Sprite.hitbox (Paddle.base p))) left_bound
                 then - IZR (Paddle.shift p) else 0
            else 0 in
  let dr := if Paddle.moving_right p
            then if Rltb (max_x (Sprite.hitbox (Paddle.base p))) right_bound
                 then IZR (Paddle.shift p) else 0
            else 0 in
  dl + dr + (if Paddle.moving_left p then dl else dr).

(** An AI paddle object does not hold both intents. *)
Definition one_intent (o : World.PaddleObj) : Prop :=
  match o with
  | World.Player _ => True
  | World.AI a =>
      Paddle.moving_left (AIPaddle.base a)
      && Paddle.moving_right (AIPaddle.base a) = false
  end.

(** The rectangle with lower left corner [(x0, y0)], as a closed path in the
    order [Sprite.draw] walks it: up, right, down, left. *)
Definition rectangle (x0 y0 w h : R) : list Turtle.Point :=
  [(x0, y0); (x0, y0 + h); (x0 + w, y0 + h); (x0 + w, y0); (x0, y0)].

(** The corners of a hitbox, in the same order. *)
Definition corners (hb : Hitbox) : list Turtle.Point :=
  [(min_x hb, min_y hb); (min_x hb, max_y hb); (max_x hb, max_y hb);
   (max_x hb, min_y hb); (min_x hb, min_y hb)].

(** * Properties *)

(** ** Constants and comparisons *)

Lemma Rleb_true (a b : R) : Rleb a b = true <-> a <= b.
Proof.
  unfold Rleb; destruct (Rle_dec a b); split; intros;
    try discriminate; tauto.
Qed.

Lemma Rltb_true (a b : R) : Rltb a b = true <-> a < b.
Proof.
  unfold Rltb; destruct (Rlt_dec a b); split; intros;
    try discriminate; tauto.
Qed.

Lemma Rgeb_true (a b : R) : Rgeb a b = true <-> a >= b.
Proof.
  unfold Rgeb; destruct (Rge_dec a b); split; intros;
    try discriminate; tauto.
Qed.

Lemma Rgtb_true (a b : R) : Rgtb a b = true <-> a > b.
Proof.
  unfold Rgtb; destruct (Rgt_dec a b); split; intros;
    try discriminate; tauto.
Qed.

Lemma Rleb_false (a b : R) : Rleb a b = false <-> b < a.
Proof.
  unfold Rleb; destruct (Rle_dec a b); split; intros;
    try discriminate; lra.
Qed.

Lemma Rltb_false (a b : R) : Rltb a b = false <-> b <= a.
Proof.
  unfold Rltb; destruct (Rlt_dec a b); split; intros;
    try discriminate; lra.
Qed.

Lemma Rgeb_false (a b : R) : Rgeb a b = false <-> a < b.
Proof.
  unfold Rgeb; destruct (Rge_dec a b); split; intros;
    try discriminate; lra.
Qed.

Lemma Rgtb_false (a b : R) : Rgtb a b = false <-> a <= b.
Proof.
  unfold Rgtb; destruct (Rgt_dec a b); split; intros;
    try discriminate; lra.
Qed.

Lemma py_int_half (n : Z) : py_int (IZR (2 * n) / 2) = n.
Proof.
  assert (E : IZR (2 * n) / 2 = IZR n) by (rewrite mult_IZR; lra).
  rewrite E. unfold py_int.
  destruct (Rle_dec 0 (IZR n)).
  - apply Zfloor_eq. lra.
  - unfold Zceil. rewrite <- opp_IZR.
    rewrite (Zfloor_eq (- n)%Z); [ lia | lra ].
Qed.

Lemma RIGHT_val : RIGHT = 300%Z.
Proof. exact (py_int_half 300). Qed.

Lemma LEFT_val : LEFT = (-300)%Z.
Proof. unfold LEFT; rewrite RIGHT_val; reflexivity. Qed.

Lemma TOP_val : TOP = 300%Z.
Proof. exact (py_int_half 300). Qed.

Lemma BOTTOM_val : BOTTOM = (-300)%Z.
Proof. unfold BOTTOM; rewrite TOP_val; reflexivity. Qed.

Lemma TOP_PADDLE_Y_val : TOP_PADDLE_Y = 250%Z.
Proof.
  change TOP_PADDLE_Y with (TOP - PADDLE_DIST_FROM_BORDER)%Z.
  rewrite TOP_val; reflexivity.
Qed.

Lemma BOTTOM_PADDLE_Y_val : BOTTOM_PADDLE_Y = (-250)%Z.
Proof. unfold BOTTOM_PADDLE_Y; rewrite TOP_PADDLE_Y_val; reflexivity. Qed.

Lemma AI_VISIBILITY_RANGE_val : AI_VISIBILITY_RANGE = 333%Z.
Proof.
  unfold AI_VISIBILITY_RANGE, py_int, HEIGHT.
  destruct (Rle_dec 0 (600 / (18 / 10))) as [_ | N].
  - apply Zfloor_eq. lra.
  - exfalso; apply N; lra.
Qed.

(** ** Paddles *)

Lemma left_bound_val : left_bound = -295.
Proof. unfold left_bound, WIDTH, PADDLE_BOUNDARY; lra. Qed.

Lemma right_bound_val : right_bound = 295.
Proof. unfold right_bound, WIDTH, PADDLE_BOUNDARY; lra. Qed.

(** Case analysis on every test left in the goal, simplifying in between. *)
Ltac split_ifs :=
  repeat (cbn;
          match goal with
          | |- context [if ?c then _ else _] => destruct c eqn:?
          end);
  cbn.

Section PaddleFacts.
Variable p : Paddle.t.

Let px := Sprite.x (Paddle.base p).
Let hb := Sprite.hitbox (Paddle.base p).

Lemma left_x :
  Sprite.x (Paddle.base (Paddle.left p))
  = if Rgtb (min_x hb) left_bound then px - IZR (Paddle.shift p) else px.
Proof.
  unfold Paddle.left; fold left_bound; subst px hb.
  destruct (Rgtb _ _); reflexivity.
Qed.

Lemma right_x :
  Sprite.x (Paddle.base (Paddle.right p))
  = if Rltb (max_x hb) right_bound then px + IZR (Paddle.shift p) else px.
Proof.
  unfold Paddle.right; fold right_bound; subst px hb.
  destruct (Rltb _ _); reflexivity.
Qed.

Lemma steer_x :
  Sprite.x (Paddle.base (Paddle.steer p))
  = if Paddle.moving_left p then Sprite.x (Paddle.base (Paddle.left p))
    else if Paddle.moving_right p then Sprite.x (Paddle.base (Paddle.right p))
    else px.
Proof.
  unfold Paddle.steer; subst px.
  destruct (Paddle.moving_left p); [ reflexivity | ].
  destruct (Paddle.moving_right p); reflexivity.
Qed.

(** [update] changes the position exactly as [steer] does. *)
Lemma update_x :
  Sprite.x (Paddle.base (fst (Paddle.update p)))
  = Sprite.x (Paddle.base (Paddle.steer p)).
Proof.
  unfold Paddle.update; cbv zeta.
  destruct (Sprite.changed (Paddle.base (Paddle.steer p))); reflexivity.
Qed.

Lemma update_flags :
  Paddle.moving_left (fst (Paddle.update p)) = Paddle.moving_left p
  /\ Paddle.moving_right (fst (Paddle.update p)) = Paddle.moving_right p
  /\ Paddle.shift (fst (Paddle.update p)) = Paddle.shift p.
Proof.
  unfold Paddle.update, Paddle.steer, Paddle.left, Paddle.right; cbv zeta.
  destruct (Paddle.moving_left p) eqn:L, (Paddle.moving_right p) eqn:Rt;
    split_ifs; auto.
Qed.

Lemma update_size :
  Sprite.width (Paddle.base (fst (Paddle.update p))) = Sprite.width (Paddle.base p)
  /\ Sprite.height (Paddle.base (fst (Paddle.update p))) = Sprite.height (Paddle.base p)
  /\ Sprite.y (Paddle.base (fst (Paddle.update p))) = Sprite.y (Paddle.base p).
Proof.
  unfold Paddle.update, Paddle.steer, Paddle.left, Paddle.right; cbv zeta.
  destruct (Paddle.moving_left p) eqn:L, (Paddle.moving_right p) eqn:Rt;
    split_ifs; auto.
Qed.

(** The hitbox follows every move before [update] returns. *)
Lemma update_synced :
  synced (Paddle.base p) -> synced (Paddle.base (fst (Paddle.update p))).
Proof.
  unfold synced, Paddle.update, Paddle.steer, Paddle.left, Paddle.right; cbv zeta.
  intros S.
  destruct (Paddle.moving_left p) eqn:L, (Paddle.moving_right p) eqn:Rt;
    split_ifs; auto.
Qed.

(** At most one draw call, and none without the flag or an intent. *)
Lemma update_draws :
  (draw_calls (snd (Paddle.update p)) <= 1)%nat
  /\ (Sprite.changed (Paddle.base p) = false ->
      Paddle.moving_left p = false -> Paddle.moving_right p = false ->
      snd (Paddle.update p) = []).
Proof.
  unfold Paddle.update, Paddle.steer; cbv zeta. split.
  - destruct (Sprite.changed _); simpl; unfold draw_calls; simpl; lia.
  - intros C L Rt. rewrite L, Rt, C. reflexivity.
Qed.

End PaddleFacts.

Lemma on_grid_init (h : Z) (cy : R) :
  on_grid (Paddle.init PADDLE_WIDTH h 0 cy PADDLE_SPEED).
Proof.
  repeat split. exists 0%Z. split; [ lia | cbn; lra ].
Qed.

Lemma on_grid_edges (p : Paddle.t) :
  on_grid p ->
  -296 <= min_x (Sprite.hitbox (Paddle.base p))
  /\ max_x (Sprite.hitbox (Paddle.base p)) <= 296.
Proof.
  intros (W & _ & S & k & [Hlo Hhi] & X).
  rewrite S, W, X. unfold Sprite.box, PADDLE_WIDTH; cbn.
  apply IZR_le in Hlo, Hhi. lra.
Qed.

Lemma on_grid_update (p : Paddle.t) :
  on_grid p -> on_grid (fst (Paddle.update p)).
Proof.
  intros (W & Sh & S & k & [Hlo Hhi] & X).
  destruct (update_size p) as (W' & _ & _).
  destruct (update_flags p) as (_ & _ & Sh').
  repeat split; [ congruence | congruence | now apply update_synced | ].
  rewrite update_x, steer_x, left_x, right_x.
  rewrite S, W, X, Sh, left_bound_val, right_bound_val.
  unfold Sprite.box, PADDLE_WIDTH, PADDLE_SPEED; cbn.
  destruct (Paddle.moving_left p).
  - destruct (Rgtb _ _) eqn:C; [ | exists k; auto ].
    apply Rgtb_true in C. exists (k - 1)%Z.
    assert (-32 < k)%Z.
    { apply lt_IZR. lra. }
    split; [ lia | rewrite minus_IZR; lra ].
  - destruct (Paddle.moving_right p); [ | exists k; auto ].
    destruct (Rltb _ _) eqn:C; [ | exists k; auto ].
    apply Rltb_true in C. exists (k + 1)%Z.
    assert (k < 32)%Z.
    { apply lt_IZR. lra. }
    split; [ lia | rewrite plus_IZR; lra ].
Qed.

Lemma on_grid_handle (i : PlayerPaddle.Intent) (p : PlayerPaddle.t) :
  on_grid (PlayerPaddle.base p) ->
  on_grid (PlayerPaddle.base (PlayerPaddle.handle i p)).
Proof.
  unfold PlayerPaddle.handle. destruct (PlayerPaddle.listening p); [ | auto ].
  destruct i; exact (fun H => H).
Qed.

(** For any paddle and speed: the edges pass the margin by less than one
    shift. *)
Lemma update_overshoot (p : Paddle.t) :
  synced (Paddle.base p) -> (0 <= Paddle.shift p)%Z ->
  left_bound - IZR (Paddle.shift p) < min_x (Sprite.hitbox (Paddle.base p)) ->
  max_x (Sprite.hitbox (Paddle.base p)) < right_bound + IZR (Paddle.shift p) ->
  let p' := fst (Paddle.update p) in
  left_bound - IZR (Paddle.shift p') < min_x (Sprite.hitbox (Paddle.base p'))
  /\ max_x (Sprite.hitbox (Paddle.base p')) < right_bound + IZR (Paddle.shift p').
Proof.
  intros S Sh Lo Hi p'.
  pose proof (update_synced p S) as S'. fold p' in S'.
  destruct (update_size p) as (W' & _ & _). fold p' in W'.
  destruct (update_flags p) as (_ & _ & Sh'). fold p' in Sh'.
  assert (X : Sprite.x (Paddle.base p') = Sprite.x (Paddle.base (Paddle.steer p)))
    by apply update_x.
  rewrite S', W', X, Sh', steer_x, left_x, right_x.
  rewrite S in Lo, Hi |- *. unfold Sprite.box in *; cbn in *.
  apply IZR_le in Sh.
  destruct (Paddle.moving_left p).
  - destruct (Rgtb _ _) eqn:C; [ apply Rgtb_true in C | ]; lra.
  - destruct (Paddle.moving_right p); [ | lra ].
    destruct (Rltb _ _) eqn:C; [ apply Rltb_true in C | ]; lra.
Qed.

(** ** The random source *)

Lemma randint_range (a b : Z) (g : Random.t) :
  (a <= b)%Z ->
  exists n : Z,
    Random.randint a b g
    = Some (n, Random.mk (Random.entropy g) (S (Random.drawn g)))
    /\ (a <= n <= b)%Z.
Proof.
  intros H. unfold Random.randint.
  destruct (Z.leb_spec a b) as [_ | N]; [ | lia ].
  eexists; split; [ reflexivity | ].
  pose proof (Z.mod_pos_bound (Random.entropy g (Random.drawn g)) (b - a + 1)).
  lia.
Qed.

(** ** The ball *)

Lemma Ball_randint (a b : Z) (e : Ball.env) :
  (a <= b)%Z ->
  exists (n : Z) (g : Random.t),
    Ball.randint a b e
    = Some (n, Ball.mkEnv (Ball.self e) (Ball.scores e) g (Ball.trace e))
    /\ (a <= n <= b)%Z.
Proof.
  intros H. destruct (randint_range a b (Ball.rng e) H) as (n & E & Hn).
  exists n; eexists. unfold Ball.randint. rewrite E. auto.
Qed.

Lemma rand_dir_spec (e : Ball.env) :
  exists (d : Z) (g : Random.t),
    Ball.rand_dir e
    = Some (tt, Ball.mkEnv (Ball.set_dir (Ball.self e) (IZR d))
                           (Ball.scores e) g (Ball.trace e))
    /\ ((25 <= d <= 155)%Z \/ (205 <= d <= 335)%Z).
Proof.
  unfold Ball.rand_dir, bind.
  destruct (Ball_randint 25 155 e) as (d & g1 & E1 & Hd); [ lia | ].
  rewrite E1. unfold Ball.on_self, modify. cbv beta iota.
  match goal with |- context [Ball.randint 0 1 ?e1] =>
    destruct (Ball_randint 0 1 e1) as (c & g2 & E2 & Hc); [ lia | ] end.
  rewrite E2. cbv beta iota.
  destruct (c =? 1)%Z.
  - exists (d + 180)%Z, g2. cbn. rewrite plus_IZR. split; [ reflexivity | lia ].
  - exists d, g2. cbn. split; [ reflexivity | lia ].
Qed.

Lemma reset_spec (e : Ball.env) :
  exists (d : Z) (g : Random.t),
    Ball.reset e
    = Some (tt, Ball.mkEnv (served (Ball.self e) (IZR d)) (Ball.scores e) g
                  (Ball.trace e
                   ++ [draw (served (Ball.self e) (IZR d)); Sleep]))
    /\ ((25 <= d <= 155)%Z \/ (205 <= d <= 335)%Z).
Proof.
  unfold Ball.reset, bind, Ball.on_self, Ball.emit, modify. cbv beta iota.
  match goal with |- context [Ball.rand_dir ?e1] =>
    destruct (rand_dir_spec e1) as (d & g & E & Hd) end.
  exists d, g. rewrite E. cbn. rewrite <- app_assoc. auto.
Qed.

(** *** The paddle loop *)

Lemma deflection_spec (b : Ball.t) (p : Paddle.t) :
  Sprite.width (Paddle.base p) <> 0%Z ->
  exists k : R,
    Ball.deflection b p = Some k
    /\ k = IZR BOUNCE_SHARPNESS
           * (Sprite.x (Paddle.base p) - Sprite.x (Ball.base b))
           / IZR (Sprite.width (Paddle.base p)).
Proof.
  intros W. unfold Ball.deflection, py_div.
  assert (IZR (Sprite.width (Paddle.base p)) <> 0) by (now apply not_0_IZR).
  destruct (Req_dec_T _ 0) as [E | _]; [ lra | ].
  eexists; split; [ reflexivity | ]. field. assumption.
Qed.

Lemma deflection_zero_width (b : Ball.t) (p : Paddle.t) :
  Sprite.width (Paddle.base p) = 0%Z -> Ball.deflection b p = None.
Proof.
  intros W. unfold Ball.deflection, py_div. rewrite W.
  destruct (Req_dec_T _ 0) as [_ | N]; [ reflexivity | exfalso; apply N; lra ].
Qed.

Lemma bounce_off_miss (p : Paddle.t) (e : Ball.env) :
  Ball.hits (Ball.self e) p = false -> Ball.bounce_off p e = Some (tt, e).
Proof.
  intros Hm. unfold Ball.bounce_off, bind, get. cbv beta iota. rewrite Hm. reflexivity.
Qed.

(** A hit on a paddle of width zero raises [ZeroDivisionError]. *)
Lemma bounce_off_zero_width (p : Paddle.t) (e : Ball.env) :
  Ball.hits (Ball.self e) p = true ->
  Sprite.width (Paddle.base p) = 0%Z ->
  Ball.bounce_off p e = None.
Proof.
  intros Hh W. unfold Ball.bounce_off, bind, get. cbv beta iota. rewrite Hh.
  unfold Ball.on_self, modify, lift_opt. cbv beta iota.
  rewrite (deflection_zero_width _ p W). reflexivity.
Qed.

Lemma bounce_off_hit (p : Paddle.t) (e : Ball.env) :
  Ball.hits (Ball.self e) p = true ->
  Sprite.width (Paddle.base p) <> 0%Z ->
  exists (j : Z) (g : Random.t),
    let b := Ball.self e in
    Ball.bounce_off p e
    = Some (tt, Ball.mkEnv
                  (Ball.mk (Ball.base b) (bounce_dir b p j) (Ball.base_speed b)
                           (Ball.shift b) (Ball.bounces b + 1))
                  (Ball.scores e) g (Ball.trace e))
    /\ (- BOUNCE_RAND_FACTOR <= j <= BOUNCE_RAND_FACTOR)%Z.
Proof.
  intros Hh W. unfold Ball.bounce_off, bind, get. cbv beta iota. rewrite Hh.
  unfold Ball.on_self, modify, lift_opt. cbv beta iota.
  match goal with |- context [Ball.deflection ?b p] =>
    destruct (deflection_spec b p W) as (k & Ek & Hk) end.
  cbn [Ball.self] in *. rewrite Ek.
  match goal with |- context [Ball.randint ?a ?c ?e1] =>
    destruct (Ball_randint a c e1) as (j & g & Ej & Hj);
      [ unfold BOUNCE_RAND_FACTOR; lia | ] end.
  rewrite Ej. exists j, g. split; [ | exact Hj ].
  unfold bounce_dir. cbv zeta. rewrite Hk.
  destruct (Rltb _ 0); reflexivity.
Qed.

(** The loop can only change the direction and the bounce counter; it runs
    to its end when no paddle it hits has width zero. *)
Lemma paddle_loop_spec (ps : list Paddle.t) :
  Forall nonzero_width ps ->
  forall e : Ball.env,
  exists (b' : Ball.t) (g' : Random.t),
    for_each ps Ball.bounce_off e
    = Some (tt, Ball.mkEnv b' (Ball.scores e) g' (Ball.trace e))
    /\ Ball.base b' = Ball.base (Ball.self e)
    /\ Ball.base_speed b' = Ball.base_speed (Ball.self e)
    /\ Ball.shift b' = Ball.shift (Ball.self e)
    /\ (Ball.bounces (Ball.self e) <= Ball.bounces b')%Z
    /\ (Forall (fun p => Ball.hits (Ball.self e) p = false) ps ->
        b' = Ball.self e /\ g' = Ball.rng e).
Proof.
  induction 1 as [ | p ps W _ IH ]; intros e.
  - exists (Ball.self e), (Ball.rng e). destruct e; cbn.
    repeat split; auto; lia.
  - cbn [for_each]. unfold bind.
    destruct (Ball.hits (Ball.self e) p) eqn:Hh.
    + destruct (bounce_off_hit p e Hh W) as (j & g & E & _).
      cbv zeta in E. rewrite E.
      match goal with |- context [for_each ps _ ?e1] =>
        destruct (IH e1) as (b' & g' & E' & B & S & Sh & Bn & _) end.
      cbn in *. exists b', g'. rewrite E'.
      split; [ reflexivity | ]. repeat (split; [ auto; lia | ]).
      intros F. inversion F; congruence.
    + rewrite (bounce_off_miss p e Hh).
      destruct (IH e) as (b' & g' & E' & B & S & Sh & Bn & Same).
      exists b', g'. rewrite E'.
      split; [ reflexivity | ]. repeat (split; [ assumption | ]).
      intros F. inversion F; auto.
Qed.

(** *** Walls and goals *)

Lemma wall_branch (e : Ball.env) :
  Ball.at_wall (Ball.self e) = true ->
  Ball.walls_and_goals e
  = Some (tt, Ball.mkEnv
                (Ball.set_dir (Ball.self e)
                              (180 - py_mod (Ball.dir (Ball.self e)) 360))
                (Ball.scores e) (Ball.rng e) (Ball.trace e)).
Proof.
  intros Hw. unfold Ball.walls_and_goals, bind, get. cbv beta iota.
  rewrite Hw. reflexivity.
Qed.

Lemma goal_branch (i : nat) (e : Ball.env) (ss : list Scorekeeper.t) :
  update_at i Scorekeeper.scored (Ball.scores e) = Some ss ->
  exists (d : Z) (g : Random.t),
    bind (Ball.on_self
            (fun b => Ball.set_dir b (360 - py_mod (Ball.dir b) 360)))
         (fun _ => bind (Ball.credit i) (fun _ => Ball.reset)) e
    = Some (tt, Ball.mkEnv (served (Ball.self e) (IZR d)) ss g
                  (Ball.trace e ++ [draw (served (Ball.self e) (IZR d)); Sleep]))
    /\ ((25 <= d <= 155)%Z \/ (205 <= d <= 335)%Z).
Proof.
  intros U. unfold bind, Ball.on_self, modify, Ball.credit. cbv beta iota.
  cbn [Ball.scores]. rewrite U.
  match goal with |- context [Ball.reset ?e1] =>
    destruct (reset_spec e1) as (d & g & E & Hd) end.
  exists d, g. rewrite E. auto.
Qed.

Lemma bottom_goal_branch (e : Ball.env) (ss : list Scorekeeper.t) :
  Ball.at_wall (Ball.self e) = false ->
  Ball.at_bottom_goal (Ball.self e) = true ->
  update_at 0 Scorekeeper.scored (Ball.scores e) = Some ss ->
  exists (d : Z) (g : Random.t),
    Ball.walls_and_goals e
    = Some (tt, Ball.mkEnv (served (Ball.self e) (IZR d)) ss g
                  (Ball.trace e ++ [draw (served (Ball.self e) (IZR d)); Sleep]))
    /\ ((25 <= d <= 155)%Z \/ (205 <= d <= 335)%Z).
Proof.
  intros Hw Hb U.
  destruct (goal_branch 0 e ss U) as (d & g & E & Hd). exists d, g.
  split; [ | exact Hd ]. rewrite <- E.
  unfold Ball.walls_and_goals at 1. unfold bind at 1, get. cbv beta iota.
  rewrite Hw, Hb. reflexivity.
Qed.

Lemma top_goal_branch (e : Ball.env) (ss : list Scorekeeper.t) :
  Ball.at_wall (Ball.self e) = false ->
  Ball.at_bottom_goal (Ball.self e) = false ->
  Ball.at_top_goal (Ball.self e) = true ->
  update_at 1 Scorekeeper.scored (Ball.scores e) = Some ss ->
  exists (d : Z) (g : Random.t),
    Ball.walls_and_goals e
    = Some (tt, Ball.mkEnv (served (Ball.self e) (IZR d)) ss g
                  (Ball.trace e ++ [draw (served (Ball.self e) (IZR d)); Sleep]))
    /\ ((25 <= d <= 155)%Z \/ (205 <= d <= 335)%Z).
Proof.
  intros Hw Hb Ht U.
  destruct (goal_branch 1 e ss U) as (d & g & E & Hd). exists d, g.
  split; [ | exact Hd ]. rewrite <- E.
  unfold Ball.walls_and_goals at 1. unfold bind at 1, get. cbv beta iota.
  rewrite Hw, Hb, Ht. reflexivity.
Qed.

Lemma no_branch (e : Ball.env) :
  Ball.at_wall (Ball.self e) = false ->
  Ball.at_bottom_goal (Ball.self e) = false ->
  Ball.at_top_goal (Ball.self e) = false ->
  Ball.walls_and_goals e = Some (tt, e).
Proof.
  intros Hw Hb Ht. unfold Ball.walls_and_goals, bind, get. cbv beta iota.
  rewrite Hw, Hb, Ht. reflexivity.
Qed.

(** *** Indexed update of a list *)

Lemma update_at_spec {A : Type} (f : A -> A) (xs : list A) (i : nat) :
  (i < List.length xs)%nat ->
  exists ys : list A,
    update_at i f xs = Some ys
    /\ List.length ys = List.length xs
    /\ nth_error ys i = option_map f (nth_error xs i)
    /\ (forall j, j <> i -> nth_error ys j = nth_error xs j).
Proof.
  revert i. induction xs as [ | a xs IH ]; intros i Hi; cbn in Hi; [ lia | ].
  destruct i as [ | i ].
  - exists (f a :: xs). cbn. repeat split; auto.
    intros [ | j ] Hj; [ congruence | reflexivity ].
  - destruct (IH i) as (ys & E & L & N & O); [ lia | ].
    exists (a :: ys). cbn. rewrite E. cbn. repeat split; auto.
    intros [ | j ] Hj; [ reflexivity | apply O; congruence ].
Qed.

Lemma update_at_None {A : Type} (f : A -> A) (xs : list A) (i : nat) :
  (List.length xs <= i)%nat -> update_at i f xs = None.
Proof.
  revert i. induction xs as [ | a xs IH ]; intros i Hi; [ destruct i; reflexivity | ].
  destruct i as [ | i ]; cbn in *; [ lia | ].
  rewrite IH by lia. reflexivity.
Qed.

(** *** The collision check as a whole *)

Lemma walls_and_goals_total (e : Ball.env) :
  (2 <= List.length (Ball.scores e))%nat ->
  exists e1 : Ball.env,
    Ball.walls_and_goals e = Some (tt, e1)
    /\ List.length (Ball.scores e1) = List.length (Ball.scores e)
    /\ Ball.base_speed (Ball.self e1) = Ball.base_speed (Ball.self e)
    /\ same_size (Ball.self e) (Ball.self e1)
    /\ Ball.trace e1
       = Ball.trace e
         ++ (if goal_taken (Ball.self e) then [draw (Ball.self e1); Sleep] else []).
Proof.
  intros L. unfold goal_taken, same_size.
  destruct (Ball.at_wall (Ball.self e)) eqn:Hw.
  - rewrite (wall_branch e Hw). eexists; split; [ reflexivity | ].
    cbn. rewrite app_nil_r. auto.
  - destruct (Ball.at_bottom_goal (Ball.self e)) eqn:Hb.
    + destruct (update_at_spec Scorekeeper.scored (Ball.scores e) 0)
        as (ss & U & Ls & _); [ lia | ].
      destruct (bottom_goal_branch e ss Hw Hb U) as (d & g & E & _).
      rewrite E. eexists; split; [ reflexivity | ]. cbn. auto 6.
    + destruct (Ball.at_top_goal (Ball.self e)) eqn:Ht.
      * destruct (update_at_spec Scorekeeper.scored (Ball.scores e) 1)
          as (ss & U & Ls & _); [ lia | ].
        destruct (top_goal_branch e ss Hw Hb Ht U) as (d & g & E & _).
        rewrite E. eexists; split; [ reflexivity | ]. cbn. auto 6.
      * rewrite (no_branch e Hw Hb Ht). exists e. cbn.
        rewrite app_nil_r. auto 6.
Qed.

Lemma check_collisions_total (ps : list Paddle.t) (e : Ball.env) :
  (2 <= List.length (Ball.scores e))%nat ->
  Forall nonzero_width ps ->
  exists e1 : Ball.env,
    Ball.check_collisions ps e = Some (tt, e1)
    /\ List.length (Ball.scores e1) = List.length (Ball.scores e)
    /\ Ball.base_speed (Ball.self e1) = Ball.base_speed (Ball.self e)
    /\ same_size (Ball.self e) (Ball.self e1)
    /\ Ball.trace e1
       = Ball.trace e
         ++ (if goal_taken (Ball.self e)
             then [DrawRect (Sprite.hitbox (Ball.base (Ball.self e1)))
                            (Sprite.width (Ball.base (Ball.self e1)))
                            (Sprite.height (Ball.base (Ball.self e1))); Sleep]
             else []).
Proof.
  intros L W.
  destruct (walls_and_goals_total e L) as (e1 & E1 & L1 & S1 & Sz & T1).
  destruct (paddle_loop_spec ps W e1) as (b' & g' & E2 & B & S2 & _).
  unfold Ball.check_collisions, bind. rewrite E1, E2.
  eexists; split; [ reflexivity | ]. unfold same_size in *. cbn.
  rewrite B. repeat split; auto; try congruence; apply Sz.
Qed.

(** *** The whole update *)

Lemma update_after_check (ps : list Paddle.t) (e e1 : Ball.env) :
  Ball.check_collisions ps e = Some (tt, e1) ->
  Ball.update ps e
  = Some (tt, Ball.mkEnv (advance (Ball.self e1)) (Ball.scores e1) (Ball.rng e1)
                (Ball.trace e1 ++ [draw (advance (Ball.self e1))])).
Proof.
  intros E. unfold Ball.update, bind. rewrite E. reflexivity.
Qed.

Lemma update_None (ps : list Paddle.t) (e : Ball.env) :
  Ball.check_collisions ps e = None -> Ball.update ps e = None.
Proof. intros E. unfold Ball.update, bind. rewrite E. reflexivity. Qed.

(** ** Reflection of the direction *)

Lemma cos_period_Z (a : R) (k : Z) : cos (a + 2 * IZR k * PI) = cos a.
Proof.
  destruct (Z_le_gt_dec 0 k) as [Hk | Hk].
  - rewrite <- (Z2Nat.id k Hk), <- INR_IZR_INZ. apply cos_period.
  - rewrite <- (cos_period (a + 2 * IZR k * PI) (Z.to_nat (- k))).
    f_equal. rewrite INR_IZR_INZ, Z2Nat.id by lia. rewrite opp_IZR. lra.
Qed.

Lemma sin_period_Z (a : R) (k : Z) : sin (a + 2 * IZR k * PI) = sin a.
Proof.
  destruct (Z_le_gt_dec 0 k) as [Hk | Hk].
  - rewrite <- (Z2Nat.id k Hk), <- INR_IZR_INZ. apply sin_period.
  - rewrite <- (sin_period (a + 2 * IZR k * PI) (Z.to_nat (- k))).
    f_equal. rewrite INR_IZR_INZ, Z2Nat.id by lia. rewrite opp_IZR. lra.
Qed.

Lemma py_mod_range (a m : R) : 0 < m -> 0 <= py_mod a m < m.
Proof.
  intros Hm. unfold py_mod.
  destruct (Zfloor_bound (a / m)) as [Lo Hi].
  assert (E : a = m * (a / m)) by (field; lra).
  split.
  - apply Rmult_le_compat_l with (r := m) in Lo; lra.
  - apply Rmult_lt_compat_l with (r := m) in Hi; lra.
Qed.

Lemma radians_reflected (theta : R) :
  radians (180 - py_mod theta 360)
  = PI - radians theta + 2 * IZR (Zfloor (theta / 360)) * PI.
Proof. unfold radians, py_mod. field. Qed.

Lemma cos_reflected (theta : R) :
  cos (radians (180 - py_mod theta 360)) = - cos (radians theta).
Proof.
  rewrite radians_reflected, cos_period_Z, cos_minus, cos_PI, sin_PI. lra.
Qed.

Lemma sin_reflected (theta : R) :
  sin (radians (180 - py_mod theta 360)) = sin (radians theta).
Proof.
  rewrite radians_reflected, sin_period_Z. apply sin_PI_x.
Qed.

(** ** Conditions of the collision check as propositions *)

Section BallConditions.
Variable b : Ball.t.

Let hb := Sprite.hitbox (Ball.base b).

Lemma at_wall_true : Ball.at_wall b = true <-> touches_wall b.
Proof.
  unfold Ball.at_wall, touches_wall.
  rewrite orb_true_iff, Rleb_true, Rgeb_true. tauto.
Qed.

Lemma at_wall_false : Ball.at_wall b = false <-> clear_of_walls b.
Proof.
  unfold Ball.at_wall, clear_of_walls.
  rewrite orb_false_iff, Rleb_false, Rgeb_false. tauto.
Qed.

Lemma at_bottom_goal_true :
  Ball.at_bottom_goal b = true <-> min_y hb <= IZR (BOTTOM + 10).
Proof. apply Rleb_true. Qed.

Lemma at_bottom_goal_false :
  Ball.at_bottom_goal b = false <-> IZR (BOTTOM + 10) < min_y hb.
Proof. apply Rleb_false. Qed.

Lemma at_top_goal_true : Ball.at_top_goal b = true <-> max_y hb >= IZR TOP.
Proof. apply Rgeb_true. Qed.

Lemma at_top_goal_false : Ball.at_top_goal b = false <-> max_y hb < IZR TOP.
Proof. apply Rgeb_false. Qed.

End BallConditions.

Lemma paddle_loop_all_miss (ps : list Paddle.t) (e : Ball.env) :
  Forall (fun p => Ball.hits (Ball.self e) p = false) ps ->
  for_each ps Ball.bounce_off e = Some (tt, e).
Proof.
  induction 1 as [ | p ps Hm _ IH ]; [ reflexivity | ].
  cbn [for_each]. unfold bind. rewrite (bounce_off_miss p e Hm). exact IH.
Qed.

Lemma check_collisions_wall (ps : list Paddle.t) (e : Ball.env) :
  Ball.at_wall (Ball.self e) = true ->
  Forall (fun p => Ball.hits (Ball.self e) p = false) ps ->
  Ball.check_collisions ps e
  = Some (tt, Ball.mkEnv
                (Ball.set_dir (Ball.self e)
                              (180 - py_mod (Ball.dir (Ball.self e)) 360))
                (Ball.scores e) (Ball.rng e) (Ball.trace e)).
Proof.
  intros Hw Hm. unfold Ball.check_collisions, bind.
  rewrite (wall_branch e Hw). apply paddle_loop_all_miss. exact Hm.
Qed.

Lemma check_collisions_none (ps : list Paddle.t) (e : Ball.env) :
  Ball.at_wall (Ball.self e) = false ->
  Ball.at_bottom_goal (Ball.self e) = false ->
  Ball.at_top_goal (Ball.self e) = false ->
  Forall (fun p => Ball.hits (Ball.self e) p = false) ps ->
  Ball.check_collisions ps e = Some (tt, e).
Proof.
  intros Hw Hb Ht Hm. unfold Ball.check_collisions, bind.
  rewrite (no_branch e Hw Hb Ht). apply paddle_loop_all_miss. exact Hm.
Qed.

Lemma check_collisions_bottom_goal
  (ps : list Paddle.t) (e : Ball.env) (ss : list Scorekeeper.t) :
  Ball.at_wall (Ball.self e) = false ->
  Ball.at_bottom_goal (Ball.self e) = true ->
  update_at 0 Scorekeeper.scored (Ball.scores e) = Some ss ->
  centre_free (Ball.self e) ps ->
  exists (d : Z) (g : Random.t),
    Ball.check_collisions ps e
    = Some (tt, Ball.mkEnv (served (Ball.self e) (IZR d)) ss g
                  (Ball.trace e ++ [draw (served (Ball.self e) (IZR d)); Sleep]))
    /\ ((25 <= d <= 155)%Z \/ (205 <= d <= 335)%Z).
Proof.
  intros Hw Hb U Hm.
  destruct (bottom_goal_branch e ss Hw Hb U) as (d & g & E & Hd).
  exists d, g. split; [ | exact Hd ].
  unfold Ball.check_collisions, bind. rewrite E.
  apply paddle_loop_all_miss. exact Hm.
Qed.

(** Replace every comparison of two explicit numbers by its value. *)
Ltac eval_cmp :=
  repeat match goal with
    | |- context [Rleb ?a ?b] =>
        first [ replace (Rleb a b) with true by (symmetry; apply Rleb_true; lra)
              | replace (Rleb a b) with false by (symmetry; apply Rleb_false; lra) ]
    | |- context [Rltb ?a ?b] =>
        first [ replace (Rltb a b) with true by (symmetry; apply Rltb_true; lra)
              | replace (Rltb a b) with false by (symmetry; apply Rltb_false; lra) ]
    | |- context [Rgeb ?a ?b] =>
        first [ replace (Rgeb a b) with true by (symmetry; apply Rgeb_true; lra)
              | replace (Rgeb a b) with false by (symmetry; apply Rgeb_false; lra) ]
    | |- context [Rgtb ?a ?b] =>
        first [ replace (Rgtb a b) with true by (symmetry; apply Rgtb_true; lra)
              | replace (Rgtb a b) with false by (symmetry; apply Rgtb_false; lra) ]
    end.

(** ** C7: reflection at a side wall *)



(** ** C8: the bounce off a paddle *)

(** C8.  Every collision the paddle loop registers (a paddle of non-zero
    width whose hitbox the ball's hitbox meets) adds exactly 1 to the bounce
    counter and sets the direction to
    [90 + BOUNCE_SHARPNESS * (paddle.x - ball.x) / paddle.width + jitter] for
    a paddle in the lower half ([paddle.y < 0]) and to
    [270 - BOUNCE_SHARPNESS * (paddle.x - ball.x) / paddle.width + jitter]
    otherwise, for an integer jitter between [- BOUNCE_RAND_FACTOR] and
    [BOUNCE_RAND_FACTOR]. *)
Theorem paddle_bounce_formula (p : Paddle.t) (e : Ball.env) :
  Ball.hits (Ball.self e) p = true ->
  Sprite.width (Paddle.base p) <> 0%Z ->
  exists (jitter : Z) (e' : Ball.env),
    Ball.bounce_off p e = Some (tt, e')
    /\ Ball.bounces (Ball.self e') = (Ball.bounces (Ball.self e) + 1)%Z
    /\ (- BOUNCE_RAND_FACTOR <= jitter <= BOUNCE_RAND_FACTOR)%Z
    /\ let k := IZR BOUNCE_SHARPNESS
                * (Sprite.x (Paddle.base p) - Sprite.x (Ball.base (Ball.self e)))
                / IZR (Sprite.width (Paddle.base p)) in
       (Sprite.y (Paddle.base p) < 0 ->
        Ball.dir (Ball.self e') = 90 + k + IZR jitter)
       /\ (0 <= Sprite.y (Paddle.base p) ->
           Ball.dir (Ball.self e') = 270 - k + IZR jitter).
Proof.
  intros Hh W.
  destruct (bounce_off_hit p e Hh W) as (j & g & E & Hj). cbv zeta in E.
  exists j; eexists. split; [ exact E | ]. split; [ reflexivity | ].
  split; [ exact Hj | ]. cbn. unfold bounce_dir. split; intros Hy.
  - apply Rltb_true in Hy. rewrite Hy. reflexivity.
  - apply Rltb_false in Hy. rewrite Hy. reflexivity.
Qed.

Lemma hits_bottom_paddle : Ball.hits (ball_at 10 (-240) 270) bottom_paddle = true.
Proof.
  unfold Ball.hits, Ball.overlap. cbn. unfold BALL_SIZE, PADDLE_WIDTH, PADDLE_HEIGHT.
  eval_cmp. reflexivity.
Qed.

Lemma paddle_bounce_formula_witness :
  exists (jitter : Z) (e' : Ball.env),
    Ball.bounce_off bottom_paddle (env_at 10 (-240) 270) = Some (tt, e')
    /\ Ball.bounces (Ball.self e') = 1%Z
    /\ (-25 <= jitter <= 25)%Z
    /\ Ball.dir (Ball.self e') = 90 + 90 * (0 - 10) / 80 + IZR jitter.
Proof.
  destruct (paddle_bounce_formula bottom_paddle (env_at 10 (-240) 270)
              hits_bottom_paddle)
    as (j & e' & E & B & Hj & Hlow & _).
  - discriminate.
  - exists j, e'. repeat split; try assumption; try apply Hj.
    apply Hlow. cbn. lra.
Defined.

(** ** C9: launch directions *)

(** C9.  Whatever the random source yields, [rand_dir] returns with a
    direction in [25, 155] or in [205, 335]; so do [reset], which a goal
    calls, and the creation of the ball. *)
Theorem launch_direction_range :
  (forall e : Ball.env,
      exists e', Ball.rand_dir e = Some (tt, e')
                 /\ launch_dir (Ball.dir (Ball.self e')))
  /\ (forall e : Ball.env,
        exists e', Ball.reset e = Some (tt, e')
                   /\ launch_dir (Ball.dir (Ball.self e')))
  /\ (forall (size speed : Z) (ss : list Scorekeeper.t) (g : Random.t),
        exists e', Ball.init size speed ss g = Some e'
                   /\ launch_dir (Ball.dir (Ball.self e'))).
Proof.
  assert (R : forall d : Z,
             (25 <= d <= 155)%Z \/ (205 <= d <= 335)%Z -> launch_dir (IZR d)).
  { intros d [[Lo Hi] | [Lo Hi]]; apply IZR_le in Lo, Hi; [ left | right ]; lra. }
  repeat split.
  - intros e. destruct (rand_dir_spec e) as (d & g & E & Hd).
    eexists; split; [ exact E | ]. apply R, Hd.
  - intros e. destruct (reset_spec e) as (d & g & E & Hd).
    eexists; split; [ exact E | ]. apply R, Hd.
  - intros size speed ss g. unfold Ball.init.
    match goal with |- context [Ball.rand_dir ?e0] =>
      destruct (rand_dir_spec e0) as (d & g' & E & Hd) end.
    rewrite E. eexists; split; [ reflexivity | ]. apply R, Hd.
Qed.

(** ** C10: a side wall takes precedence over the goal lines *)

(** C10.  When the ball's hitbox meets a side wall and a goal line in the
    same tick, the collision check (on paddles of non-zero width) returns
    with every scorekeeper as it was and without a reset: position, hitbox
    and speed are kept, the bounce counter is not lowered, nothing is drawn,
    and the direction is the wall reflection when no paddle is hit.  The
    update of that tick leaves the scorekeepers unchanged too. *)
Theorem wall_precedes_goal (ps : list Paddle.t) (e : Ball.env) :
  touches_wall (Ball.self e) ->
  (min_y (Sprite.hitbox (Ball.base (Ball.self e))) <= IZR (BOTTOM + 10)
   \/ max_y (Sprite.hitbox (Ball.base (Ball.self e))) >= IZR TOP) ->
  Forall nonzero_width ps ->
  exists (b' : Ball.t) (g' : Random.t),
    Ball.check_collisions ps e
    = Some (tt, Ball.mkEnv b' (Ball.scores e) g' (Ball.trace e))
    /\ Ball.base b' = Ball.base (Ball.self e)
    /\ Ball.shift b' = Ball.shift (Ball.self e)
    /\ (Ball.bounces (Ball.self e) <= Ball.bounces b')%Z
    /\ (Forall (fun p => Ball.hits (Ball.self e) p = false) ps ->
        b' = Ball.set_dir (Ball.self e)
                          (180 - py_mod (Ball.dir (Ball.self e)) 360)
        /\ g' = Ball.rng e)
    /\ exists e2 : Ball.env,
         Ball.update ps e = Some (tt, e2) /\ Ball.scores e2 = Ball.scores e.
Proof.
  intros Hw _ W. apply at_wall_true in Hw.
  pose proof (wall_branch e Hw) as E1.
  match type of E1 with _ = Some (tt, ?e1) =>
    destruct (paddle_loop_spec ps W e1) as (b' & g' & E2 & B & _ & Sh & Bn & Same) end.
  assert (E : Ball.check_collisions ps e
              = Some (tt, Ball.mkEnv b' (Ball.scores e) g' (Ball.trace e))).
  { unfold Ball.check_collisions, bind. rewrite E1. exact E2. }
  exists b', g'. cbn in *.
  repeat (split; [ assumption | ]).
  rewrite (update_after_check ps e _ E). eexists; split; reflexivity.
Qed.

Lemma corner_env_misses :
  Forall (fun p => Ball.hits (Ball.self corner_env) p = false) start_paddles.
Proof.
  repeat constructor; unfold Ball.hits, Ball.overlap; cbn;
    unfold BALL_SIZE, PADDLE_WIDTH, PADDLE_HEIGHT; eval_cmp; reflexivity.
Qed.

Lemma corner_env_at_wall : touches_wall (Ball.self corner_env).
Proof. left. cbn. rewrite LEFT_val. unfold BALL_SIZE. lra. Qed.

Lemma corner_env_at_goal :
  min_y (Sprite.hitbox (Ball.base (Ball.self corner_env))) <= IZR (BOTTOM + 10).
Proof. cbn. rewrite BOTTOM_val. unfold BALL_SIZE. cbn. lra. Qed.

Lemma start_paddles_width : Forall nonzero_width start_paddles.
Proof. repeat constructor; discriminate. Qed.

Lemma wall_precedes_goal_witness :
  exists (b' : Ball.t) (g' : Random.t),
    Ball.check_collisions start_paddles corner_env
    = Some (tt, Ball.mkEnv b' two_scores g' [])
    /\ Ball.base b' = Ball.base (Ball.self corner_env).
Proof.
  destruct (wall_precedes_goal start_paddles corner_env corner_env_at_wall
              (or_introl corner_env_at_goal) start_paddles_width)
    as (b' & g' & E & B & _).
  exists b', g'. split; assumption.
Defined.

(** ** C2: the bottom goal *)

(** C2 as stated fails: a ball whose hitbox bottom edge is below
    [BOTTOM + 10] while its left edge is on the left wall is only reflected;
    after the update of that tick both scores are still 0 and the ball is far
    from the origin. *)
Lemma goal_skipped_at_wall :
  min_y (Sprite.hitbox (Ball.base (Ball.self corner_env))) <= IZR (BOTTOM + 10)
  /\ exists e' : Ball.env,
       Ball.update start_paddles corner_env = Some (tt, e')
       /\ map Scorekeeper.score (Ball.scores e') = [0%Z; 0%Z]
       /\ Sprite.x (Ball.base (Ball.self e')) < -280.
Proof.
  split; [ exact corner_env_at_goal | ].
  pose proof (check_collisions_wall start_paddles corner_env
                (proj2 (at_wall_true _) corner_env_at_wall) corner_env_misses) as E.
  rewrite (update_after_check _ _ _ E).
  eexists; split; [ reflexivity | ]. split; [ reflexivity | ].
  cbn. unfold BALL_SPEED, BALL_SPEED_INCREASE.
  pose proof (COS_bound (radians (180 - py_mod 225 360))) as [_ Hc].
  lra.
Qed.

(** C2 (amended).  When the ball's hitbox is clear of both side walls and its
    bottom edge is at or below [BOTTOM + 10], the collision check returns
    with [scores[0].score] increased by exactly 1 (the other scorekeepers
    untouched), the ball at (0, 0) and the bounce counter at 0, provided no
    paddle overlaps the re-centred ball, as is the case in every state of the
    game ([reachable_centre_free]).  The update of that tick then moves the
    ball one step of its base speed away from (0, 0). *)
Theorem bottom_goal_scores
  (ps : list Paddle.t) (e : Ball.env) (s0 : Scorekeeper.t)
  (rest : list Scorekeeper.t) :
  let b := Ball.self e in
  clear_of_walls b ->
  min_y (Sprite.hitbox (Ball.base b)) <= IZR (BOTTOM + 10) ->
  Ball.scores e = s0 :: rest ->
  centre_free b ps ->
  exists (e1 : Ball.env) (s0' : Scorekeeper.t),
    Ball.check_collisions ps e = Some (tt, e1)
    /\ Ball.scores e1 = s0' :: rest
    /\ Scorekeeper.score s0' = (Scorekeeper.score s0 + 1)%Z
    /\ Sprite.x (Ball.base (Ball.self e1)) = 0
    /\ Sprite.y (Ball.base (Ball.self e1)) = 0
    /\ Ball.bounces (Ball.self e1) = 0%Z
    /\ exists e2 : Ball.env,
         Ball.update ps e = Some (tt, e2)
         /\ Ball.scores e2 = s0' :: rest
         /\ Ball.bounces (Ball.self e2) = 0%Z
         /\ Sprite.x (Ball.base (Ball.self e2))
            = IZR (Ball.base_speed b) * cos (radians (Ball.dir (Ball.self e1)))
         /\ Sprite.y (Ball.base (Ball.self e2))
            = IZR (Ball.base_speed b) * sin (radians (Ball.dir (Ball.self e1))).
Proof.
  intros b Hw Hb Hs Hm.
  apply at_wall_false in Hw. apply at_bottom_goal_true in Hb.
  destruct (check_collisions_bottom_goal ps e (Scorekeeper.scored s0 :: rest)
              Hw Hb)
    as (d & g & E & _); [ rewrite Hs; reflexivity | exact Hm | ].
  eexists; exists (Scorekeeper.scored s0).
  split; [ exact E | ]. repeat (split; [ reflexivity | ]).
  rewrite (update_after_check ps e _ E).
  eexists; split; [ reflexivity | ]. repeat (split; [ reflexivity | ]).
  subst b; cbn; split; ring.
Qed.

Lemma goal_env_clear : clear_of_walls (Ball.self goal_env).
Proof. split; cbn; rewrite ?LEFT_val, ?RIGHT_val; unfold BALL_SIZE; lra. Qed.

Lemma goal_env_at_goal :
  min_y (Sprite.hitbox (Ball.base (Ball.self goal_env))) <= IZR (BOTTOM + 10).
Proof. cbn. rewrite BOTTOM_val. unfold BALL_SIZE. cbn. lra. Qed.

Lemma start_paddles_centre_free (cx cy d : R) :
  centre_free (ball_at cx cy d) start_paddles.
Proof.
  repeat constructor; unfold Ball.overlap; cbn;
    unfold BALL_SIZE, PADDLE_WIDTH, PADDLE_HEIGHT; eval_cmp; reflexivity.
Qed.

Lemma bottom_goal_scores_witness :
  exists (e1 : Ball.env) (s0' : Scorekeeper.t),
    Ball.check_collisions start_paddles goal_env = Some (tt, e1)
    /\ Ball.scores e1 = [s0'; score2]
    /\ Scorekeeper.score s0' = 1%Z
    /\ Sprite.x (Ball.base (Ball.self e1)) = 0
    /\ Sprite.y (Ball.base (Ball.self e1)) = 0
    /\ Ball.bounces (Ball.self e1) = 0%Z.
Proof.
  destruct (bottom_goal_scores start_paddles goal_env score1 [score2])
    as (e1 & s0' & E & S & Sc & X & Y & B & _).
  - exact goal_env_clear.
  - exact goal_env_at_goal.
  - reflexivity.
  - apply start_paddles_centre_free.
  - exists e1, s0'. repeat split; assumption.
Defined.

(** ** C4: the top goal line *)

(** C4, evaluated.  A ball whose hitbox top edge is at 295, past [TOP - 10],
    clear of the side walls and of the paddles, goes through the collision
    check unchanged: no goal is credited and the ball is not reset.  The
    mirror image, with its bottom edge at -295, is a goal: scorekeeper 0 is
    credited and the ball is re-centred.  The top test compares with [TOP],
    not with [TOP - 10]. *)
Theorem top_goal_line_not_inset :
  IZR (TOP - 10) <= max_y (Sprite.hitbox (Ball.base (Ball.self (env_at 0 289 90))))
  /\ Ball.check_collisions start_paddles (env_at 0 289 90)
     = Some (tt, env_at 0 289 90)
  /\ exists e1 : Ball.env,
       Ball.check_collisions start_paddles (env_at 0 (-289) 270) = Some (tt, e1)
       /\ map Scorekeeper.score (Ball.scores e1) = [1%Z; 0%Z]
       /\ Sprite.y (Ball.base (Ball.self e1)) = 0.
Proof.
  split; [ cbn; rewrite TOP_val; unfold BALL_SIZE; cbn; lra | ]. split.
  - unfold Ball.check_collisions, bind. rewrite no_branch.
    + apply paddle_loop_all_miss.
      repeat constructor; unfold Ball.hits, Ball.overlap; cbn;
        unfold BALL_SIZE, PADDLE_WIDTH, PADDLE_HEIGHT; eval_cmp; reflexivity.
    + apply at_wall_false. split; cbn; rewrite ?LEFT_val, ?RIGHT_val;
        unfold BALL_SIZE; lra.
    + apply at_bottom_goal_false. cbn. rewrite BOTTOM_val. unfold BALL_SIZE. cbn. lra.
    + apply at_top_goal_false. cbn. rewrite TOP_val. unfold BALL_SIZE. lra.
  - destruct (check_collisions_bottom_goal start_paddles goal_env
                [Scorekeeper.scored score1; score2])
      as (d & g & E & _).
    + apply at_wall_false, goal_env_clear.
    + apply at_bottom_goal_true, goal_env_at_goal.
    + reflexivity.
    + apply start_paddles_centre_free.
    + eexists. split; [ exact E | ]. split; reflexivity.
Qed.

(** ** The AI paddle *)

Lemma premove_x (p : Paddle.t) :
  Sprite.x (Paddle.base (AIPaddle.premove p))
  = let dl := if Paddle.moving_left p
              then if Rgtb (min_x (Sprite.hitbox (Paddle.base p))) left_bound
                   then - IZR (Paddle.shift p) else 0
              else 0 in
    let dr := if Paddle.moving_right p
              then if Rltb (max_x (Sprite.hitbox (Paddle.base p))) right_bound
                   then IZR (Paddle.shift p) else 0
              else 0 in
    Sprite.x (Paddle.base p) + dl + dr.
Proof.
  unfold AIPaddle.premove, Paddle.left, Paddle.right. fold left_bound right_bound.
  destruct (Paddle.moving_left p) eqn:L, (Paddle.moving_right p) eqn:Rt;
    split_ifs; try lra; cbn in *; congruence.
Qed.

Lemma premove_frame (p : Paddle.t) :
  let p' := AIPaddle.premove p in
  Sprite.hitbox (Paddle.base p') = Sprite.hitbox (Paddle.base p)
  /\ Sprite.width (Paddle.base p') = Sprite.width (Paddle.base p)
  /\ Sprite.height (Paddle.base p') = Sprite.height (Paddle.base p)
  /\ Sprite.y (Paddle.base p') = Sprite.y (Paddle.base p)
  /\ Paddle.shift p' = Paddle.shift p
  /\ Paddle.moving_left p' = Paddle.moving_left p
  /\ Paddle.moving_right p' = Paddle.moving_right p.
Proof.
  unfold AIPaddle.premove, Paddle.left, Paddle.right.
  destruct (Paddle.moving_left p) eqn:L, (Paddle.moving_right p) eqn:Rt;
    split_ifs; cbn in *; repeat split; congruence.
Qed.

Lemma on_line_update (p : Paddle.t) :
  on_line p -> on_line (fst (Paddle.update p)).
Proof.
  intros (H & Y & S). destruct (update_size p) as (_ & H' & Y').
  unfold on_line. rewrite H', Y'. auto using update_synced.
Qed.

Lemma steer_changed (p : Paddle.t) :
  Paddle.moving_left p = true \/ Paddle.moving_right p = true ->
  Sprite.changed (Paddle.base (Paddle.steer p)) = true.
Proof.
  unfold Paddle.steer.
  destruct (Paddle.moving_left p); [ reflexivity | ].
  destruct (Paddle.moving_right p); [ reflexivity | ].
  intros [H | H]; discriminate.
Qed.

Lemma update_synced_changed (p : Paddle.t) :
  Sprite.changed (Paddle.base (Paddle.steer p)) = true ->
  synced (Paddle.base (fst (Paddle.update p))).
Proof.
  intros C. unfold Paddle.update. cbv zeta. rewrite C. reflexivity.
Qed.

Lemma premove_idle (p : Paddle.t) :
  Paddle.moving_left p = false -> Paddle.moving_right p = false ->
  AIPaddle.premove p = p.
Proof.
  intros L Rt. unfold AIPaddle.premove. rewrite L. cbv zeta. rewrite Rt.
  reflexivity.
Qed.

(** The AI paddle's own moves leave the hitbox behind; the call of
    [Paddle.update] that follows puts it right. *)
Lemma on_line_ai_moves (p : Paddle.t) :
  on_line p -> on_line (fst (Paddle.update (AIPaddle.premove p))).
Proof.
  intros (H & Y & S).
  destruct (update_size (AIPaddle.premove p)) as (_ & H' & Y').
  destruct (premove_frame p) as (_ & _ & H1 & Y1 & _ & L & Rt).
  unfold on_line. rewrite H', Y', H1, Y1.
  split; [ exact H | ]. split; [ exact Y | ].
  destruct (Paddle.moving_left p) eqn:EL.
  - apply update_synced_changed, steer_changed. left. exact L.
  - destruct (Paddle.moving_right p) eqn:ER.
    + apply update_synced_changed, steer_changed. right. exact Rt.
    + rewrite (premove_idle p EL ER). apply update_synced, S.
Qed.

(** With one intent set and its bound test passed, [update] applies the
    shift twice: once in its own [if], once more in [Paddle.update], whose
    test reads the hitbox that has not been refreshed in between. *)
Lemma ai_update_moves_twice (b : Ball.t) (a a1 : AIPaddle.t) (g g1 : Random.t) :
  AIPaddle.decide b a g = Some (a1, g1) ->
  let p := AIPaddle.base a1 in
  exists (a' : AIPaddle.t) (ev : list Event),
    AIPaddle.update b a g = Some (a', g1, ev)
    /\ (Paddle.moving_left p = true -> Paddle.moving_right p = false ->
        min_x (Sprite.hitbox (Paddle.base p)) > left_bound ->
        Sprite.x (Paddle.base (AIPaddle.base a'))
        = Sprite.x (Paddle.base p) - 2 * IZR (Paddle.shift p))
    /\ (Paddle.moving_left p = false -> Paddle.moving_right p = true ->
        max_x (Sprite.hitbox (Paddle.base p)) < right_bound ->
        Sprite.x (Paddle.base (AIPaddle.base a'))
        = Sprite.x (Paddle.base p) + 2 * IZR (Paddle.shift p)).
Proof.
  intros D p. unfold AIPaddle.update. rewrite D. fold p.
  destruct (Paddle.update (AIPaddle.premove p)) as [p' ev] eqn:U.
  exists (AIPaddle.mk p' (AIPaddle.base_speed a1) (AIPaddle.sees_ball a1)
                      (AIPaddle.rand_dir_set a1)), ev.
  split; [ reflexivity | ].
  assert (X : Sprite.x (Paddle.base p')
              = Sprite.x (Paddle.base (Paddle.steer (AIPaddle.premove p)))).
  { rewrite <- update_x, U. reflexivity. }
  destruct (premove_frame p) as (H & _ & _ & _ & Sh & L & Rt).
  cbn [AIPaddle.base]. rewrite X, steer_x, left_x, right_x, H, Sh, L, Rt, premove_x.
  split; intros HL HR C; rewrite HL, HR.
  - apply Rgtb_true in C. rewrite C. cbv zeta. lra.
  - apply Rltb_true in C. rewrite C. cbv zeta. lra.
Qed.

(** Replace the absolute value of an explicit number by its value. *)
Ltac eval_abs :=
  repeat match goal with
    | |- context [Rabs ?a] =>
        first [ rewrite (Rabs_pos_eq a) by lra | rewrite (Rabs_left a) by lra ]
    end.

(** The AI paddle of [main] with the ball in sight on its left decides to
    move left at its speed of 5. *)
Lemma ai_start_decides_left :
  AIPaddle.decide (ball_at (-100) 0 90) ai_start zeros
  = Some (AIPaddle.go_left ai_start, zeros).
Proof.
  unfold AIPaddle.decide, AIPaddle.set_dir. cbn.
  rewrite AI_VISIBILITY_RANGE_val, BOTTOM_PADDLE_Y_val.
  unfold AI_PADDLE_SPEED. eval_abs. eval_cmp. reflexivity.
Qed.

(** ** C5: the AI paddle's displacement *)

(** C5, evaluated.  The AI paddle of [main] (x = 0, speed 5), with the ball
    in sight at x = -100, has exactly one intent set after steering (left)
    and passes the left bound test; its update returns with the paddle at
    x = -10, two shifts of 5, not one. *)
Theorem ai_paddle_shifts_twice :
  exists (a' : AIPaddle.t) (ev : list Event),
    AIPaddle.update (ball_at (-100) 0 90) ai_start zeros = Some (a', zeros, ev)
    /\ Paddle.moving_left (AIPaddle.base a') = true
    /\ Paddle.moving_right (AIPaddle.base a') = false
    /\ Paddle.shift (AIPaddle.base a') = 5%Z
    /\ Sprite.x (Paddle.base (AIPaddle.base ai_start)) = 0
    /\ Sprite.x (Paddle.base (AIPaddle.base a')) = -10.
Proof.
  destruct (ai_update_moves_twice _ _ _ _ _ ai_start_decides_left)
    as (a' & ev & E & HL & _).
  exists a', ev. split; [ exact E | ].
  unfold AIPaddle.update in E. rewrite ai_start_decides_left in E.
  destruct (Paddle.update _) as [p' ev'] eqn:U in E.
  injection E as <- <-.
  pose proof (update_flags
                (AIPaddle.premove (AIPaddle.base (AIPaddle.go_left ai_start))))
    as (FL & FR & FS).
  rewrite U in FL, FR, FS. cbn [fst AIPaddle.base] in *.
  destruct (premove_frame (AIPaddle.base (AIPaddle.go_left ai_start)))
    as (_ & _ & _ & _ & Sh & L & Rt).
  cbv zeta in Sh, L, Rt. rewrite Sh in FS. rewrite L in FL. rewrite Rt in FR.
  repeat (split; [ assumption || reflexivity | ]).
  rewrite HL; try reflexivity.
  - cbn. unfold AI_PADDLE_SPEED. lra.
  - cbn. rewrite left_bound_val. unfold PADDLE_WIDTH. lra.
Qed.

(** ** C3: both intents set *)

(** C3 as stated fails: with both intents set on the paddle of [main] at
    x = 0, both bound tests pass, yet the update moves the paddle by -8. *)
Lemma both_intents_move_left :
  Paddle.moving_left both_keys = true
  /\ Paddle.moving_right both_keys = true
  /\ min_x (Sprite.hitbox (Paddle.base both_keys)) > left_bound
  /\ max_x (Sprite.hitbox (Paddle.base both_keys)) < right_bound
  /\ Sprite.x (Paddle.base (fst (Paddle.update both_keys)))
     - Sprite.x (Paddle.base both_keys) = -8
  /\ Sprite.x (Paddle.base (fst (Paddle.update both_keys)))
     - Sprite.x (Paddle.base both_keys) <> 0.
Proof.
  assert (L : min_x (Sprite.hitbox (Paddle.base both_keys)) > left_bound).
  { rewrite left_bound_val. cbn. unfold PADDLE_WIDTH. lra. }
  assert (D : Sprite.x (Paddle.base (fst (Paddle.update both_keys)))
              - Sprite.x (Paddle.base both_keys) = -8).
  { rewrite update_x, steer_x, left_x. apply Rgtb_true in L. rewrite L.
    cbn. unfold PADDLE_SPEED. lra. }
  repeat (split; [ reflexivity || assumption | ]).
  split; [ rewrite right_bound_val; cbn; unfold PADDLE_WIDTH; lra | ].
  split; [ exact D | rewrite D; lra ].
Qed.

(** C3 (amended).  In [Paddle.update] the two intents are the branches of one
    [if ... elif]: with both set only the left one is processed.  The paddle
    moves by [- shift] when the left bound test passes and stays where it is
    otherwise; the right bound test has no effect. *)
Theorem both_intents_left_only (p : Paddle.t) :
  Paddle.moving_left p = true ->
  Paddle.moving_right p = true ->
  Sprite.x (Paddle.base (fst (Paddle.update p)))
  = (if Rgtb (min_x (Sprite.hitbox (Paddle.base p))) left_bound
     then Sprite.x (Paddle.base p) - IZR (Paddle.shift p)
     else Sprite.x (Paddle.base p))
  /\ fst (Paddle.update p)
     = Paddle.start_right (fst (Paddle.update (Paddle.stop_right p))).
Proof.
  intros L Rt. split.
  - rewrite update_x, steer_x, left_x, L. reflexivity.
  - destruct p as [s sh ml mr]. cbn in L, Rt. subst ml mr.
    unfold Paddle.update, Paddle.steer, Paddle.left. cbn.
    destruct (Rgtb _ _); reflexivity.
Qed.

Lemma both_intents_left_only_witness :
  Sprite.x (Paddle.base (fst (Paddle.update both_keys)))
  = (if Rgtb (min_x (Sprite.hitbox (Paddle.base both_keys))) left_bound
     then Sprite.x (Paddle.base both_keys) - IZR (Paddle.shift both_keys)
     else Sprite.x (Paddle.base both_keys)).
Proof.
  exact (proj1 (both_intents_left_only both_keys eq_refl eq_refl)).
Defined.

(** ** Draw calls *)

Lemma Sprite_update_draws {T : Type} `{SpriteLike T} (o : T) :
  (draw_calls (snd (Sprite_update o)) <= 1)%nat
  /\ (Sprite.changed (sprite o) = false -> snd (Sprite_update o) = []).
Proof.
  unfold Sprite_update.
  destruct (Sprite.changed (sprite o)); split; intros; try discriminate;
    try reflexivity.
  - cbn. destruct (draw _); cbn; lia.
  - cbn. lia.
Qed.

Lemma PlayerPaddle_update_events (p : PlayerPaddle.t) :
  snd (PlayerPaddle.update p) = snd (Paddle.update (PlayerPaddle.base p))
  /\ PlayerPaddle.base (fst (PlayerPaddle.update p))
     = fst (Paddle.update (PlayerPaddle.base p)).
Proof.
  unfold PlayerPaddle.update.
  destruct (Paddle.update (PlayerPaddle.base p)); split; reflexivity.
Qed.

Lemma ai_rand_dir_total (a : AIPaddle.t) (g : Random.t) :
  (0 <= AIPaddle.base_speed a)%Z ->
  exists (a' : AIPaddle.t) (g' : Random.t),
    AIPaddle.rand_dir a g = Some (a', g')
    /\ AIPaddle.base_speed a' = AIPaddle.base_speed a
    /\ Paddle.base (AIPaddle.base a') = Paddle.base (AIPaddle.base a)
    /\ (0 <= Paddle.shift (AIPaddle.base a') <= AIPaddle.base_speed a)%Z.
Proof.
  intros Hs. unfold AIPaddle.rand_dir.
  destruct (randint_range 0 (AIPaddle.base_speed a) g Hs) as (v & E1 & Hv).
  rewrite E1.
  match goal with |- context [Random.randint 0 1 ?g1] =>
    destruct (randint_range 0 1 g1) as (c & E2 & _); [ lia | ] end.
  rewrite E2. eexists; eexists. split; [ reflexivity | ].
  destruct (c =? 1)%Z; cbn; auto.
Qed.

Lemma ai_decide_total (b : Ball.t) (a : AIPaddle.t) (g : Random.t) :
  (0 <= AIPaddle.base_speed a)%Z ->
  exists (a' : AIPaddle.t) (g' : Random.t),
    AIPaddle.decide b a g = Some (a', g')
    /\ AIPaddle.base_speed a' = AIPaddle.base_speed a
    /\ Paddle.base (AIPaddle.base a') = Paddle.base (AIPaddle.base a).
Proof.
  intros Hs. unfold AIPaddle.decide. cbn [AIPaddle.sees_ball AIPaddle.set_sees_ball].
  destruct (Rltb _ (IZR AI_VISIBILITY_RANGE)).
  - eexists; eexists. split; [ reflexivity | ].
    unfold AIPaddle.set_dir. split_ifs; auto.
  - cbn [AIPaddle.rand_dir_set AIPaddle.set_sees_ball].
    destruct (AIPaddle.rand_dir_set a); cbn [negb].
    + eexists; eexists. split; [ reflexivity | ]. auto.
    + match goal with |- context [AIPaddle.rand_dir ?a1 g] =>
        destruct (ai_rand_dir_total a1 g Hs) as (a' & g' & E & S & B & _) end.
      rewrite E. eexists; eexists. split; [ reflexivity | ]. auto.
Qed.

Lemma ai_update_total (b : Ball.t) (a : AIPaddle.t) (g : Random.t) :
  (0 <= AIPaddle.base_speed a)%Z ->
  exists (a' : AIPaddle.t) (g' : Random.t) (ev : list Event),
    AIPaddle.update b a g = Some (a', g', ev)
    /\ AIPaddle.base_speed a' = AIPaddle.base_speed a
    /\ Sprite.width (Paddle.base (AIPaddle.base a'))
       = Sprite.width (Paddle.base (AIPaddle.base a))
    /\ (draw_calls ev <= 1)%nat
    /\ (on_line (AIPaddle.base a) -> on_line (AIPaddle.base a')).
Proof.
  intros Hs. destruct (ai_decide_total b a g Hs) as (a1 & g1 & D & S & B).
  unfold AIPaddle.update. rewrite D.
  destruct (Paddle.update (AIPaddle.premove (AIPaddle.base a1))) as [p ev] eqn:U.
  eexists; eexists; eexists. split; [ reflexivity | ].
  pose proof (update_size (AIPaddle.premove (AIPaddle.base a1))) as (W & _).
  pose proof (update_draws (AIPaddle.premove (AIPaddle.base a1))) as (Dr & _).
  pose proof (on_line_ai_moves (AIPaddle.base a1)) as Ln.
  destruct (premove_frame (AIPaddle.base a1)) as (_ & W1 & _).
  rewrite U in W, Dr, Ln. cbn [fst snd AIPaddle.base AIPaddle.base_speed] in *.
  split; [ exact S | ]. split; [ rewrite W, W1, B; reflexivity | ].
  split; [ exact Dr | ].
  intros L0. apply Ln. unfold on_line in *. rewrite B. exact L0.
Qed.

Lemma ball_update_total (ps : list Paddle.t) (e : Ball.env) :
  (2 <= List.length (Ball.scores e))%nat ->
  Forall nonzero_width ps ->
  exists (e' : Ball.env) (ev : list Event),
    Ball.update ps e = Some (tt, e')
    /\ List.length (Ball.scores e') = List.length (Ball.scores e)
    /\ same_size (Ball.self e) (Ball.self e')
    /\ Ball.trace e' = Ball.trace e ++ ev
    /\ draw_calls ev = (if goal_taken (Ball.self e) then 2 else 1)%nat.
Proof.
  intros L W.
  destruct (check_collisions_total ps e L W) as (e1 & E & L1 & _ & Sz & T).
  rewrite (update_after_check ps e e1 E).
  eexists; eexists. split; [ reflexivity | ]. cbn.
  split; [ exact L1 | ]. split; [ exact Sz | ].
  rewrite T, <- app_assoc. split; [ reflexivity | ].
  destruct (goal_taken (Ball.self e)); reflexivity.
Qed.

(** The draw calls of [Paddle.update], exactly: one when [changed] or an
    intent is set, none otherwise. *)
Lemma update_draw_count (p : Paddle.t) :
  draw_calls (snd (Paddle.update p))
  = if Sprite.changed (Paddle.base p) || Paddle.moving_left p
       || Paddle.moving_right p
    then 1%nat else 0%nat.
Proof.
  unfold Paddle.update, Paddle.steer; cbv zeta.
  destruct (Paddle.moving_left p); [ rewrite orb_true_r; reflexivity | ].
  destruct (Paddle.moving_right p); [ rewrite orb_true_r; reflexivity | ].
  rewrite !orb_false_r.
  destruct (Sprite.changed (Paddle.base p)); reflexivity.
Qed.

(** The AI paddle's own two [if]s set [changed] when an intent is set. *)
Lemma premove_changed (p : Paddle.t) :
  Sprite.changed (Paddle.base (AIPaddle.premove p))
  = Sprite.changed (Paddle.base p) || Paddle.moving_left p
    || Paddle.moving_right p.
Proof.
  unfold AIPaddle.premove, Paddle.left, Paddle.right.
  destruct (Paddle.moving_left p) eqn:L, (Paddle.moving_right p) eqn:Rt;
    split_ifs; cbn in *; rewrite ?L, ?Rt, ?orb_true_r, ?orb_false_r;
    try reflexivity; congruence.
Qed.

(** The draw calls of [AIPaddle.update], from the intents it has chosen. *)
Lemma ai_update_draw_count
  (b : Ball.t) (a a1 : AIPaddle.t) (g g1 : Random.t) :
  AIPaddle.decide b a g = Some (a1, g1) ->
  exists (a' : AIPaddle.t) (ev : list Event),
    AIPaddle.update b a g = Some (a', g1, ev)
    /\ draw_calls ev
       = if Sprite.changed (Paddle.base (AIPaddle.base a1))
            || Paddle.moving_left (AIPaddle.base a1)
            || Paddle.moving_right (AIPaddle.base a1)
         then 1%nat else 0%nat.
Proof.
  intros D. unfold AIPaddle.update. rewrite D.
  pose proof (update_draw_count (AIPaddle.premove (AIPaddle.base a1))) as C.
  destruct (Paddle.update (AIPaddle.premove (AIPaddle.base a1))) as [p ev].
  eexists; eexists. split; [ reflexivity | ].
  cbn [snd] in C. rewrite C, premove_changed.
  destruct (premove_frame (AIPaddle.base a1)) as (_ & _ & _ & _ & _ & L & Rt).
  rewrite L, Rt. clear C L Rt.
  destruct (Sprite.changed (Paddle.base (AIPaddle.base a1))),
    (Paddle.moving_left (AIPaddle.base a1)),
    (Paddle.moving_right (AIPaddle.base a1)); reflexivity.
Qed.

(** What [AIPaddle.update] chooses: in the deadband, and out of sight with
    the random direction already set, the intents stay as they are; in sight
    outside the deadband, and when the random direction is rolled, exactly
    one intent is set.  The sprite is not touched. *)
Lemma ai_decide_intents (b : Ball.t) (a : AIPaddle.t) (g : Random.t) :
  (0 <= AIPaddle.base_speed a)%Z ->
  exists (a1 : AIPaddle.t) (g1 : Random.t),
    AIPaddle.decide b a g = Some (a1, g1)
    /\ Paddle.base (AIPaddle.base a1) = Paddle.base (AIPaddle.base a)
    /\ ((ai_sees b a /\ ai_aligned b a)
        \/ (~ ai_sees b a /\ AIPaddle.rand_dir_set a = true) ->
        Paddle.moving_left (AIPaddle.base a1)
        = Paddle.moving_left (AIPaddle.base a)
        /\ Paddle.moving_right (AIPaddle.base a1)
           = Paddle.moving_right (AIPaddle.base a))
    /\ ((ai_sees b a /\ ~ ai_aligned b a)
        \/ (~ ai_sees b a /\ AIPaddle.rand_dir_set a = false) ->
        xorb (Paddle.moving_left (AIPaddle.base a1))
             (Paddle.moving_right (AIPaddle.base a1)) = true).
Proof.
  intros Hs. unfold AIPaddle.decide, AIPaddle.set_dir, AIPaddle.rand_dir,
    ai_sees, ai_aligned.
  cbn [AIPaddle.sees_ball AIPaddle.set_sees_ball AIPaddle.rand_dir_set
       AIPaddle.base_speed AIPaddle.base AIPaddle.on_base
       Paddle.base Paddle.set_shift].
  destruct (Rltb _ (IZR AI_VISIBILITY_RANGE)) eqn:See.
  - apply Rltb_true in See.
    destruct (Rltb _ (15 / 10 * _)) eqn:Al.
    + apply Rltb_true in Al.
      eexists; eexists. split; [ reflexivity | ]. cbn.
      split; [ reflexivity | ]. split; [ auto | ].
      intros [[_ N] | [N _]]; contradiction.
    + apply Rltb_false in Al.
      destruct (Rgtb _ _); (eexists; eexists; split; [ reflexivity | ]); cbn;
        (split; [ reflexivity | ]);
        (split; [ intros [[_ N] | [N _]]; [ lra | contradiction ] | auto ]).
  - apply Rltb_false in See.
    destruct (AIPaddle.rand_dir_set a) eqn:Latch; cbn [negb].
    + eexists; eexists. split; [ reflexivity | ]. cbn.
      split; [ reflexivity | ]. split; [ auto | ].
      intros [[N _] | [_ N]]; [ lra | discriminate ].
    + destruct (randint_range 0 (AIPaddle.base_speed a) g Hs) as (v & E1 & _).
      rewrite E1.
      match goal with |- context [Random.randint 0 1 ?g2] =>
        destruct (randint_range 0 1 g2) as (c & E2 & _); [ lia | ] end.
      rewrite E2. eexists; eexists. split; [ reflexivity | ].
      destruct (c =? 1)%Z; cbn; (split; [ reflexivity | ]);
        (split; [ intros [[N _] | [_ N]]; [ lra | discriminate ] | auto ]).
Qed.

(** ** C6: draw calls per update *)

Lemma goal_env_goal_taken : goal_taken (Ball.self goal_env) = true.
Proof.
  unfold goal_taken.
  rewrite (proj2 (at_wall_false _) goal_env_clear).
  rewrite (proj2 (at_bottom_goal_true _) goal_env_at_goal). reflexivity.
Qed.

(** C6 as stated fails: on a goal tick the ball's update draws twice, once
    in [reset] and once in the refresh that ends the update. *)
Lemma ball_draws_twice_on_goal :
  exists e' : Ball.env,
    Ball.update start_paddles goal_env = Some (tt, e')
    /\ draw_calls (Ball.trace e') = 2%nat.
Proof.
  destruct (ball_update_total start_paddles goal_env)
    as (e' & ev & E & _ & _ & T & D).
  - cbn. lia.
  - exact start_paddles_width.
  - exists e'. split; [ exact E | ].
    rewrite T. change (Ball.trace goal_env) with (@nil Event). cbn [app].
    rewrite D, goal_env_goal_taken. reflexivity.
Qed.

(** C6 (amended).  An update issues at most one draw call for a scorekeeper
    (which inherits [Sprite.update]), for a paddle, for the player's paddle
    and for the AI paddle.  It issues none for a scorekeeper whose [changed]
    is not set, and none for a paddle or the player's paddle when neither
    [changed] nor a move intent is set.  The AI paddle chooses its intents
    inside its update: with neither [changed] nor an intent set on entry it
    issues no draw call when the ball is in sight and within the deadband,
    or out of sight with [rand_dir_set] already set; with the ball in sight
    outside the deadband, or out of sight with [rand_dir_set] not set, the
    update sets an intent and issues exactly one draw call, whatever the
    flags were on entry.  The ball's update sets [changed] itself: it issues
    exactly one draw call on a tick without a goal and exactly two on a tick
    with a goal. *)
Theorem draw_calls_per_update :
  (forall s : Scorekeeper.t,
      (draw_calls (snd (Scorekeeper.update s)) <= 1)%nat
      /\ (Sprite.changed (Scorekeeper.base s) = false ->
          draw_calls (snd (Scorekeeper.update s)) = 0%nat))
  /\ (forall p : Paddle.t,
        (draw_calls (snd (Paddle.update p)) <= 1)%nat
        /\ (Sprite.changed (Paddle.base p) = false ->
            Paddle.moving_left p = false -> Paddle.moving_right p = false ->
            draw_calls (snd (Paddle.update p)) = 0%nat))
  /\ (forall p : PlayerPaddle.t,
        (draw_calls (snd (PlayerPaddle.update p)) <= 1)%nat
        /\ (Sprite.changed (Paddle.base (PlayerPaddle.base p)) = false ->
            Paddle.moving_left (PlayerPaddle.base p) = false ->
            Paddle.moving_right (PlayerPaddle.base p) = false ->
            draw_calls (snd (PlayerPaddle.update p)) = 0%nat))
  /\ (forall (b : Ball.t) (a : AIPaddle.t) (g : Random.t),
        (0 <= AIPaddle.base_speed a)%Z ->
        exists a' g' ev,
          AIPaddle.update b a g = Some (a', g', ev)
          /\ (draw_calls ev <= 1)%nat
          /\ (Sprite.changed (Paddle.base (AIPaddle.base a)) = false ->
              Paddle.moving_left (AIPaddle.base a) = false ->
              Paddle.moving_right (AIPaddle.base a) = false ->
              (ai_sees b a /\ ai_aligned b a)
              \/ (~ ai_sees b a /\ AIPaddle.rand_dir_set a = true) ->
              draw_calls ev = 0%nat)
          /\ ((ai_sees b a /\ ~ ai_aligned b a)
              \/ (~ ai_sees b a /\ AIPaddle.rand_dir_set a = false) ->
              draw_calls ev = 1%nat))
  /\ (forall (ps : list Paddle.t) (e : Ball.env),
        (2 <= List.length (Ball.scores e))%nat ->
        Forall nonzero_width ps ->
        exists e' ev,
          Ball.update ps e = Some (tt, e')
          /\ Ball.trace e' = Ball.trace e ++ ev
          /\ draw_calls ev = (if goal_taken (Ball.self e) then 2 else 1)%nat).
Proof.
  split; [ | split; [ | split; [ | split ] ] ].
  - intros s. destruct (Sprite_update_draws s) as (Le & Z).
    split; [ exact Le | ]. intros C. unfold Scorekeeper.update.
    rewrite (Z C). reflexivity.
  - intros p. destruct (update_draws p) as (Le & Z).
    split; [ exact Le | ]. intros C L Rt. rewrite (Z C L Rt). reflexivity.
  - intros p. rewrite (proj1 (PlayerPaddle_update_events p)).
    destruct (update_draws (PlayerPaddle.base p)) as (Le & Z).
    split; [ exact Le | ]. intros C L Rt. rewrite (Z C L Rt). reflexivity.
  - intros b a g Hs.
    destruct (ai_decide_intents b a g Hs) as (a1 & g1 & D & B & Keep & One).
    destruct (ai_update_draw_count b a a1 g g1 D) as (a' & ev & U & Cnt).
    exists a', g1, ev. split; [ exact U | ]. rewrite Cnt, B.
    split.
    { match goal with |- context [if ?c then _ else _] => destruct c end; lia. }
    split.
    + intros C L Rt Case. destruct (Keep Case) as (L1 & R1).
      rewrite C, L1, R1, L, Rt. reflexivity.
    + intros Case. specialize (One Case).
      destruct (Paddle.moving_left (AIPaddle.base a1)),
        (Paddle.moving_right (AIPaddle.base a1)); try discriminate;
        rewrite ?orb_true_r; reflexivity.
  - intros ps e L W.
    destruct (ball_update_total ps e L W) as (e' & ev & E & _ & _ & T & D).
    exists e', ev. auto.
Qed.

(** The AI paddle of [main] once drawn: [changed] cleared, no intent set. *)
Lemma draw_calls_per_update_witness :
  (exists e' ev,
      Ball.update start_paddles rally_env = Some (tt, e')
      /\ Ball.trace e' = Ball.trace rally_env ++ ev
      /\ draw_calls ev
         = (if goal_taken (Ball.self rally_env) then 2 else 1)%nat)
  /\ (exists a' g' ev,
         AIPaddle.update (ball_at (-100) 0 90)
                         (AIPaddle.on_base (fun p => mark p false) ai_start)
                         zeros
         = Some (a', g', ev)
         /\ draw_calls ev = 1%nat).
Proof.
  split.
  - apply (proj2 (proj2 (proj2 (proj2 draw_calls_per_update)))).
    + cbn. lia.
    + repeat constructor; discriminate.
  - destruct (proj1 (proj2 (proj2 (proj2 draw_calls_per_update)))
                (ball_at (-100) 0 90)
                (AIPaddle.on_base (fun p => mark p false) ai_start) zeros)
      as (a' & g' & ev & U & _ & _ & One).
    + discriminate.
    + exists a', g', ev. split; [ exact U | ]. apply One. left. split.
      * unfold ai_sees. cbn.
        rewrite AI_VISIBILITY_RANGE_val, BOTTOM_PADDLE_Y_val.
        rewrite (Rabs_left (-250 - 0)) by lra. lra.
      * unfold ai_aligned. cbn. unfold AI_PADDLE_SPEED.
        rewrite (Rabs_pos_eq (0 - -100)) by lra. lra.
Defined.

(** ** The game as a whole *)

Lemma paddle_ok_width (o : World.PaddleObj) :
  paddle_ok o -> nonzero_width (World.as_paddle o).
Proof.
  destruct o as [p | a]; intros (_ & G); cbn in *.
  - destruct G as (W & _). unfold nonzero_width. rewrite W. discriminate.
  - apply G.
Qed.

Lemma Ball_init_spec (size speed : Z) (ss : list Scorekeeper.t) (g : Random.t) :
  exists (d : Z) (g' : Random.t),
    Ball.init size speed ss g
    = Some (Ball.mkEnv (Ball.mk (Sprite.init size size 0 0) (IZR d) speed
                                (IZR speed) 0) ss g' []).
Proof.
  unfold Ball.init.
  match goal with |- context [Ball.rand_dir ?e0] =>
    destruct (rand_dir_spec e0) as (d & g' & E & _) end.
  rewrite E. exists d, g'. reflexivity.
Qed.

Lemma on_line_init (w : Z) (cx cy : R) (v : Z) :
  cy = 250 \/ cy = -250 -> on_line (Paddle.init w PADDLE_HEIGHT cx cy v).
Proof. intros Y. repeat split. exact Y. Qed.

Lemma main_spec (g : Random.t) :
  exists w : World.t,
    World.main g = Some w
    /\ world_ok w
    /\ exists a, World.paddles w = [World.Player player_start; World.AI a].
Proof.
  unfold World.main.
  match goal with |- context [Ball.init ?s ?v ?ss g] =>
    destruct (Ball_init_spec s v ss g) as (d & g' & E) end.
  rewrite E. eexists. split; [ reflexivity | ]. split.
  - split; [ | split; [ split; reflexivity | cbn; lia ] ].
    constructor; [ | constructor; [ | constructor ] ].
    + split; [ | apply on_grid_init ].
      apply on_line_init. left. rewrite TOP_PADDLE_Y_val. reflexivity.
    + split; [ | split ].
      * apply on_line_init. right. rewrite BOTTOM_PADDLE_Y_val. reflexivity.
      * unfold nonzero_width; cbn; discriminate.
      * unfold AI_PADDLE_SPEED; cbn; lia.
  - eexists. reflexivity.
Qed.

Lemma update_at_Forall {A : Type} (P : A -> Prop) (f : A -> A) :
  (forall a, P a -> P (f a)) ->
  forall (xs ys : list A) (i : nat),
    Forall P xs -> update_at i f xs = Some ys -> Forall P ys.
Proof.
  intros Hf. induction xs as [ | a xs IH ]; intros ys i F U;
    [ destruct i; discriminate | ].
  inversion F as [ | ? ? Pa Pxs ]; subst.
  destruct i as [ | i ]; cbn in U.
  - injection U as <-. constructor; auto.
  - destruct (update_at i f xs) as [ zs | ] eqn:E; [ | discriminate ].
    injection U as <-. constructor; eauto.
Qed.

Lemma handle_ok (i : PlayerPaddle.Intent) (p : PlayerPaddle.t) :
  paddle_ok (World.Player p) ->
  paddle_ok (World.Player (PlayerPaddle.handle i p)).
Proof.
  intros (Ln & G). split; [ | apply on_grid_handle, G ].
  cbn in *. unfold PlayerPaddle.handle.
  destruct (PlayerPaddle.listening p); [ | exact Ln ].
  destruct i; exact Ln.
Qed.

Lemma key_ok (n : nat) (i : PlayerPaddle.Intent) (w : World.t) :
  world_ok w -> world_ok (World.key n i w).
Proof.
  intros (P & S). unfold World.key.
  destruct (update_at n _ (World.paddles w)) as [ ps | ] eqn:U; [ | split; auto ].
  split; [ | exact S ]. cbn.
  refine (update_at_Forall paddle_ok _ _ _ _ n P U).
  intros [p | a]; [ apply handle_ok | auto ].
Qed.

Lemma update_paddle_spec (b : Ball.t) (o : World.PaddleObj) (g : Random.t) :
  paddle_ok o ->
  exists o' g' ev,
    World.update_paddle b o g = Some (o', g', ev)
    /\ paddle_ok o'
    /\ (forall p, o = World.Player p ->
                  o' = World.Player (fst (PlayerPaddle.update p))).
Proof.
  destruct o as [p | a]; intros (Ln & G); cbn [World.update_paddle] in *.
  - destruct (PlayerPaddle.update p) as [p1 ev] eqn:U.
    exists (World.Player p1), g, ev. split; [ reflexivity | ].
    pose proof (PlayerPaddle_update_events p) as (_ & B). rewrite U in B.
    cbn [fst] in B. split.
    + split; cbn in *; rewrite B;
        [ apply on_line_update, Ln | apply on_grid_update, G ].
    + intros q [= <-]. rewrite U. reflexivity.
  - destruct G as (W & S).
    destruct (ai_update_total b a g S)
      as (a' & g' & ev & E & S' & W' & _ & Ln').
    rewrite E. exists (World.AI a'), g', ev. split; [ reflexivity | ]. split.
    + split; [ apply Ln', Ln | ].
      cbn. unfold nonzero_width in *. rewrite W', S'. auto.
    + discriminate.
Qed.

Lemma update_paddles_spec (b : Ball.t) (os : list World.PaddleObj) :
  Forall paddle_ok os ->
  forall g : Random.t,
  exists os' g' ev,
    World.update_paddles b os g = Some (os', g', ev)
    /\ Forall paddle_ok os'
    /\ (forall p rest, os = World.Player p :: rest ->
          exists rest',
            os' = World.Player (fst (PlayerPaddle.update p)) :: rest').
Proof.
  induction 1 as [ | o os Ho _ IH ]; intros g.
  - exists [], g, []. repeat split; auto. discriminate.
  - cbn [World.update_paddles].
    destruct (update_paddle_spec b o g Ho) as (o' & g1 & ev1 & E1 & Ho' & Hp).
    rewrite E1. destruct (IH g1) as (os' & g2 & ev2 & E2 & Hos' & _).
    rewrite E2. exists (o' :: os'), g2, (ev1 ++ ev2).
    split; [ reflexivity | ]. split; [ constructor; assumption | ].
    intros p rest [= -> ->]. exists os'. rewrite (Hp p eq_refl). reflexivity.
Qed.

Lemma update_scores_length (ss : list Scorekeeper.t) :
  List.length (fst (World.update_scores ss)) = List.length ss.
Proof.
  induction ss as [ | s ss IH ]; [ reflexivity | ].
  cbn [World.update_scores].
  destruct (Scorekeeper.update s) as [s1 ev1].
  destruct (World.update_scores ss) as [rest ev2].
  cbn in *. rewrite IH. reflexivity.
Qed.

(** A pass of the loop never raises in such a state, keeps the invariant and
    updates a player's paddle by [PlayerPaddle.update]. *)
Lemma tick_spec (w : World.t) :
  world_ok w ->
  exists w' : World.t,
    World.tick w = Some w'
    /\ world_ok w'
    /\ (forall p rest, World.paddles w = World.Player p :: rest ->
          exists rest',
            World.paddles w'
            = World.Player (fst (PlayerPaddle.update p)) :: rest').
Proof.
  intros (P & (Bw & Bh) & S). unfold World.tick, World.update_ball.
  destruct (ball_update_total (map World.as_paddle (World.paddles w))
              (Ball.mkEnv (World.ball w) (World.scores w) (World.rng w)
                          (World.trace w)))
    as (e' & ev & E & L & (Sw & Sh) & _).
  - exact S.
  - apply Forall_map. revert P. apply Forall_impl. exact paddle_ok_width.
  - rewrite E. cbn [World.ball World.paddles World.rng World.scores World.trace].
    destruct (update_paddles_spec (Ball.self e') (World.paddles w) P (Ball.rng e'))
      as (os' & g' & ev' & E' & P' & Hp).
    rewrite E'.
    pose proof (update_scores_length (Ball.scores e')) as L'.
    destruct (World.update_scores (Ball.scores e')) as [ss evs].
    eexists. split; [ reflexivity | ]. split; [ | exact Hp ].
    split; [ exact P' | ]. cbn in *. split; [ split; congruence | lia ].
Qed.

Lemma reachable_ok (w : World.t) : World.reachable w -> world_ok w.
Proof.
  induction 1 as [ g w M | w n i _ IH | w w' _ IH T ].
  - destruct (main_spec g) as (w0 & M0 & Ok & _). congruence.
  - apply key_ok, IH.
  - destruct (tick_spec w IH) as (w1 & T1 & Ok & _). congruence.
Qed.

(** The paddles stay 250 away from the centre line: none of them meets a
    ball re-centred by [reset]. *)
Lemma on_line_centre_free (b : Ball.t) (p : Paddle.t) :
  ball_ok b -> on_line p ->
  Ball.overlap (Sprite.box (Sprite.width (Ball.base b))
                           (Sprite.height (Ball.base b)) 0 0)
               (Sprite.hitbox (Paddle.base p)) = false.
Proof.
  intros (Bw & Bh) (H & Y & S).
  rewrite Bw, Bh, S, H. unfold Ball.overlap, Sprite.box, BALL_SIZE, PADDLE_HEIGHT.
  cbn [min_x max_x min_y max_y].
  destruct Y as [Y | Y]; rewrite Y.
  - replace (Rgeb (0 + 12 / 2) (250 + 10 / 2)) with false
      by (symmetry; apply Rgeb_false; lra).
    rewrite andb_false_r. reflexivity.
  - replace (Rleb (0 - 12 / 2) (-250 + 10 / 2)) with false
      by (symmetry; apply Rleb_false; lra).
    reflexivity.
Qed.

Lemma reachable_centre_free (w : World.t) :
  World.reachable w ->
  centre_free (World.ball w) (map World.as_paddle (World.paddles w))
  /\ exists s0 rest, World.scores w = s0 :: rest.
Proof.
  intros Rw. destruct (reachable_ok w Rw) as (P & B & S). split.
  - apply Forall_map. revert P. apply Forall_impl.
    intros o (Ln & _). apply on_line_centre_free; assumption.
  - destruct (World.scores w) as [ | s0 rest ]; [ cbn in S; lia | eauto ].
Qed.

(** ** C1: the paddle and the boundary margin *)

(** Every pass of the loop exists and moves the first paddle, when it is a
    player's, by one [update]. *)
Lemma ticks_reach (n : nat) :
  forall (w : World.t) (p : PlayerPaddle.t) (rest : list World.PaddleObj),
    World.reachable w ->
    World.paddles w = World.Player p :: rest ->
    exists w' rest',
      World.reachable w'
      /\ World.paddles w' = World.Player (updates n p) :: rest'.
Proof.
  induction n as [ | n IH ]; intros w p rest Rw Pw.
  - exists w, rest. auto.
  - destruct (IH w p rest Rw Pw) as (w1 & rest1 & R1 & P1).
    destruct (tick_spec w1 (reachable_ok w1 R1)) as (w2 & T & _ & Hp).
    destruct (Hp _ _ P1) as (rest2 & P2).
    exists w2, rest2. split; [ | exact P2 ].
    apply World.reach_tick with (w := w1); assumption.
Qed.

(** Holding the left key: the paddle goes left by 8 per update for 32
    updates. *)
Lemma held_left (n : nat) :
  (n <= 32)%nat ->
  let p := PlayerPaddle.base (updates n player_left) in
  Sprite.x (Paddle.base p) = - 8 * INR n
  /\ synced (Paddle.base p)
  /\ Sprite.width (Paddle.base p) = PADDLE_WIDTH
  /\ Paddle.shift p = PADDLE_SPEED
  /\ Paddle.moving_left p = true.
Proof.
  induction n as [ | n IH ]; intros Hn.
  - cbn. repeat split. lra.
  - destruct IH as (X & S & W & Sh & L); [ lia | ].
    cbn [updates]. cbv zeta.
    rewrite (proj2 (PlayerPaddle_update_events _)).
    set (p := PlayerPaddle.base (updates n player_left)) in *.
    destruct (update_size p) as (W' & _).
    destruct (update_flags p) as (L' & _ & Sh').
    repeat split; try congruence; [ | apply update_synced, S ].
    rewrite update_x, steer_x, L, left_x, S, W, Sh, X, left_bound_val.
    assert (Hb : INR n <= 31).
    { replace 31 with (INR 31) by (cbn; lra). apply le_INR. lia. }
    unfold Sprite.box, PADDLE_WIDTH, PADDLE_SPEED. cbn [min_x].
    replace (Rgtb _ _) with true by (symmetry; apply Rgtb_true; lra).
    rewrite S_INR. lra.
Qed.

(** C1 as stated fails: from the state [main] sets up, a first pass of the
    loop, a press of the left key and 32 more passes lead to a state in which
    the hitbox left edge of the player's paddle is at -296, beyond the margin
    at -295. *)
Lemma paddle_passes_margin :
  exists (w : World.t) (p : PlayerPaddle.t) (rest : list World.PaddleObj),
    World.reachable w
    /\ World.paddles w = World.Player p :: rest
    /\ min_x (Sprite.hitbox (Paddle.base (PlayerPaddle.base p))) = -296
    /\ min_x (Sprite.hitbox (Paddle.base (PlayerPaddle.base p)))
       < - IZR WIDTH / 2 + IZR PADDLE_BOUNDARY.
Proof.
  destruct (main_spec zeros) as (w0 & M & _ & a & P0).
  destruct (ticks_reach 1 w0 _ _ (World.reach_main zeros w0 M) P0)
    as (w1 & rest1 & Rw1 & Pw1).
  assert (R1 : World.reachable (World.key 0 PlayerPaddle.StartLeft w1)).
  { apply World.reach_key, Rw1. }
  assert (P1 : World.paddles (World.key 0 PlayerPaddle.StartLeft w1)
               = World.Player player_left :: rest1).
  { unfold World.key. rewrite Pw1. reflexivity. }
  destruct (ticks_reach 32 _ _ _ R1 P1) as (w & rest & Rw & Pw).
  exists w, (updates 32 player_left), rest.
  destruct (held_left 32) as (X & S & W & _); [ lia | ].
  assert (E : min_x (Sprite.hitbox (Paddle.base (PlayerPaddle.base
                (updates 32 player_left)))) = -296).
  { rewrite S, W, X. unfold Sprite.box, PADDLE_WIDTH. cbn [min_x].
    replace (INR 32) with 32 by (cbn; lra). lra. }
  repeat (split; [ assumption | ]).
  rewrite E. unfold WIDTH, PADDLE_BOUNDARY. lra.
Qed.

(** C1 (amended).  A move is made only while the tested hitbox edge is
    strictly inside the margin, so the edge can end beyond it by less than
    one shift.  In every state of the game, whatever keys were pressed and
    however many passes of the loop were made, the hitbox left edge of a
    player's paddle is never less than -296 and its right edge never greater
    than 296; leftward motion halts once the left edge has passed -295. *)
Theorem player_paddle_within_one_shift
  (w : World.t) (p : PlayerPaddle.t) :
  World.reachable w ->
  In (World.Player p) (World.paddles w) ->
  let hb := Sprite.hitbox (Paddle.base (PlayerPaddle.base p)) in
  -296 <= min_x hb /\ max_x hb <= 296
  /\ - IZR WIDTH / 2 + IZR PADDLE_BOUNDARY - IZR PADDLE_SPEED < min_x hb
  /\ max_x hb < IZR WIDTH / 2 - IZR PADDLE_BOUNDARY + IZR PADDLE_SPEED
  /\ (min_x hb <= - IZR WIDTH / 2 + IZR PADDLE_BOUNDARY ->
      Sprite.x (Paddle.base (Paddle.left (PlayerPaddle.base p)))
      = Sprite.x (Paddle.base (PlayerPaddle.base p))).
Proof.
  intros Rw Hin hb.
  destruct (reachable_ok w Rw) as (P & _).
  rewrite Forall_forall in P. destruct (P _ Hin) as (_ & G).
  destruct (on_grid_edges _ G) as (Lo & Hi). fold hb in Lo, Hi.
  unfold WIDTH, PADDLE_BOUNDARY, PADDLE_SPEED.
  repeat (split; [ lra | ]).
  intros Hm. rewrite left_x. fold hb.
  replace (Rgtb (min_x hb) left_bound) with false; [ reflexivity | ].
  symmetry. apply Rgtb_false. unfold left_bound, WIDTH, PADDLE_BOUNDARY. lra.
Qed.

Lemma main_zeros : World.main zeros = Some start_world.
Proof. reflexivity. Qed.

Lemma player_paddle_within_one_shift_witness :
  let hb := Sprite.hitbox (Paddle.base (PlayerPaddle.base player_start)) in
  -296 <= min_x hb /\ max_x hb <= 296.
Proof.
  destruct (player_paddle_within_one_shift start_world player_start)
    as (Lo & Hi & _).
  - apply World.reach_main with (g := zeros). reflexivity.
  - left. reflexivity.
  - split; assumption.
Defined.

(** * Further properties *)

(** ** Paddles *)

(** X1.  [Paddle.update] moves a paddle only sideways and by at most one
    shift: the position changes by 0, [- shift] or [+ shift], and not at all
    without an intent; y, size, shift and intents are kept and [changed] is
    cleared. *)
Theorem paddle_update_frame (p : Paddle.t) :
  let p' := fst (Paddle.update p) in
  Sprite.y (Paddle.base p') = Sprite.y (Paddle.base p)
  /\ Sprite.width (Paddle.base p') = Sprite.width (Paddle.base p)
  /\ Sprite.height (Paddle.base p') = Sprite.height (Paddle.base p)
  /\ Paddle.shift p' = Paddle.shift p
  /\ Paddle.moving_left p' = Paddle.moving_left p
  /\ Paddle.moving_right p' = Paddle.moving_right p
  /\ Sprite.changed (Paddle.base p') = false
  /\ (Sprite.x (Paddle.base p') = Sprite.x (Paddle.base p)
      \/ Sprite.x (Paddle.base p') = Sprite.x (Paddle.base p) - IZR (Paddle.shift p)
      \/ Sprite.x (Paddle.base p') = Sprite.x (Paddle.base p) + IZR (Paddle.shift p))
  /\ (Paddle.moving_left p = false -> Paddle.moving_right p = false ->
      Sprite.x (Paddle.base p') = Sprite.x (Paddle.base p)).
Proof.
  intros p'. subst p'.
  destruct (update_size p) as (W & H & Y).
  destruct (update_flags p) as (L & Rt & Sh).
  repeat (split; [ assumption | ]).
  split.
  { unfold Paddle.update; cbv zeta.
    destruct (Sprite.changed (Paddle.base (Paddle.steer p))); reflexivity. }
  rewrite update_x, steer_x, left_x, right_x. split.
  - destruct (Paddle.moving_left p); [ destruct (Rgtb _ _); auto | ].
    destruct (Paddle.moving_right p); [ destruct (Rltb _ _); auto | auto ].
  - intros -> ->. reflexivity.
Qed.

Lemma paddle_update_frame_witness :
  Sprite.x (Paddle.base (fst (Paddle.update top_paddle)))
  = Sprite.x (Paddle.base top_paddle).
Proof.
  refine (proj2 (proj2 (proj2 (proj2 (proj2 (proj2 (proj2 (proj2
    (paddle_update_frame top_paddle)))))))) eq_refl eq_refl).
Defined.

(** X2.  Without an intent a second [Paddle.update] is idle: it returns the
    paddle as the first one left it and draws nothing. *)
Theorem paddle_update_idle_twice (p : Paddle.t) :
  Paddle.moving_left p = false ->
  Paddle.moving_right p = false ->
  Paddle.update (fst (Paddle.update p)) = (fst (Paddle.update p), []).
Proof.
  intros L Rt. destruct p as [[w h cx cy hb c] sh ml mr]. cbn in L, Rt. subst.
  unfold Paddle.update, Paddle.steer. cbn. destruct c; reflexivity.
Qed.

Lemma paddle_update_idle_twice_witness :
  Paddle.update (fst (Paddle.update top_paddle))
  = (fst (Paddle.update top_paddle), []).
Proof. exact (paddle_update_idle_twice top_paddle eq_refl eq_refl). Defined.

Lemma set_flags_frame (p : Paddle.t) (l r : bool) :
  let q := Paddle.set_moving_right (Paddle.set_moving_left p l) r in
  Paddle.base q = Paddle.base p /\ Paddle.shift q = Paddle.shift p.
Proof. split; reflexivity. Qed.

(** X3.  For a paddle of any size and any speed [shift >= 0] whose hitbox is
    in place, whatever the intents are before each update and however many
    updates are made, the hitbox edges stay within one shift of the margin:
    left edge above [-295 - shift], right edge below [295 + shift]. *)
Theorem paddle_stays_within_margin_plus_shift
  (keys : list (bool * bool)) (p : Paddle.t) :
  synced (Paddle.base p) ->
  (0 <= Paddle.shift p)%Z ->
  left_bound - IZR (Paddle.shift p) < min_x (Sprite.hitbox (Paddle.base p)) ->
  max_x (Sprite.hitbox (Paddle.base p)) < right_bound + IZR (Paddle.shift p) ->
  let p' := drive keys p in
  Paddle.shift p' = Paddle.shift p
  /\ synced (Paddle.base p')
  /\ -295 - IZR (Paddle.shift p) < min_x (Sprite.hitbox (Paddle.base p'))
  /\ max_x (Sprite.hitbox (Paddle.base p')) < 295 + IZR (Paddle.shift p).
Proof.
  revert p. induction keys as [ | [l r] keys IH ]; intros p S Sh Lo Hi.
  - cbn. rewrite <- left_bound_val, <- right_bound_val. auto.
  - cbn [drive]. cbv zeta.
    set (q := Paddle.set_moving_right (Paddle.set_moving_left p l) r).
    destruct (update_flags q) as (_ & _ & Sh').
    destruct (update_overshoot q S Sh Lo Hi) as (Lo' & Hi').
    pose proof (update_synced q S) as S'.
    change (Paddle.shift q) with (Paddle.shift p) in Sh'.
    destruct (IH (fst (Paddle.update q))) as (E & S2 & Lo2 & Hi2);
      try assumption; try (rewrite Sh'; assumption).
    rewrite Sh' in *. auto.
Qed.

Lemma paddle_stays_within_margin_plus_shift_witness :
  let p' := drive [(true, false); (true, true); (false, true)] top_paddle in
  -295 - 8 < min_x (Sprite.hitbox (Paddle.base p'))
  /\ max_x (Sprite.hitbox (Paddle.base p')) < 295 + 8.
Proof.
  destruct (paddle_stays_within_margin_plus_shift
              [(true, false); (true, true); (false, true)] top_paddle)
    as (_ & _ & Lo & Hi).
  - reflexivity.
  - discriminate.
  - rewrite left_bound_val. cbn. unfold PADDLE_WIDTH, PADDLE_SPEED. lra.
  - rewrite right_bound_val. cbn. unfold PADDLE_WIDTH, PADDLE_SPEED. lra.
  - split; assumption.
Defined.

(** ** Scorekeepers *)

(** X4.  [scored] adds exactly one point each time and asks for a redraw:
    after [n] goals the score is [n] higher, the next [update] writes the new
    score once and clears [changed], and the update after that is idle. *)
Theorem scored_then_update (n : nat) (s : Scorekeeper.t) :
  let s1 := scored_times (S n) s in
  let s2 := fst (Scorekeeper.update s1) in
  Scorekeeper.score s1 = (Scorekeeper.score s + Z.of_nat (S n))%Z
  /\ snd (Scorekeeper.update s1) = [DrawText (Scorekeeper.score s1)]
  /\ Scorekeeper.score s2 = Scorekeeper.score s1
  /\ Sprite.changed (Scorekeeper.base s2) = false
  /\ Scorekeeper.update s2 = (s2, []).
Proof.
  assert (Sc : forall k, Scorekeeper.score (scored_times k s)
                         = (Scorekeeper.score s + Z.of_nat k)%Z).
  { induction k as [ | k IH ]; [ cbn; lia | ].
    cbn [scored_times]. unfold Scorekeeper.scored at 1.
    cbn [Scorekeeper.score]. rewrite IH. lia. }
  intros s1 s2. split; [ apply Sc | ].
  subst s2 s1. cbn [scored_times].
  unfold Scorekeeper.update, Sprite_update. cbn. auto.
Qed.

(** ** The ball's update *)

(** X5.  When the collision check returns, so does [Ball.update], and it
    leaves the ball consistent: the hitbox is the box around the new
    position, [changed] is cleared, and the last event of the trace is the
    drawing of that hitbox. *)
Theorem ball_update_refreshes_hitbox
  (ps : list Paddle.t) (e e1 : Ball.env) :
  Ball.check_collisions ps e = Some (tt, e1) ->
  exists e2 : Ball.env,
    Ball.update ps e = Some (tt, e2)
    /\ synced (Ball.base (Ball.self e2))
    /\ Sprite.changed (Ball.base (Ball.self e2)) = false
    /\ Ball.trace e2
       = Ball.trace e1
         ++ [DrawRect (Sprite.hitbox (Ball.base (Ball.self e2)))
                      (Sprite.width (Ball.base (Ball.self e2)))
                      (Sprite.height (Ball.base (Ball.self e2)))]
    /\ Ball.scores e2 = Ball.scores e1
    /\ Ball.rng e2 = Ball.rng e1.
Proof.
  intros E. rewrite (update_after_check ps e e1 E).
  eexists. split; [ reflexivity | ]. repeat split.
Qed.

Lemma rally_env_check :
  Ball.check_collisions start_paddles rally_env = Some (tt, rally_env).
Proof.
  apply check_collisions_none.
  - apply at_wall_false. split; cbn; rewrite ?LEFT_val, ?RIGHT_val;
      unfold BALL_SIZE; lra.
  - apply at_bottom_goal_false. cbn. rewrite BOTTOM_val. unfold BALL_SIZE. cbn. lra.
  - apply at_top_goal_false. cbn. rewrite TOP_val. unfold BALL_SIZE. lra.
  - repeat constructor; unfold Ball.hits, Ball.overlap; cbn;
      unfold BALL_SIZE, PADDLE_WIDTH, PADDLE_HEIGHT; eval_cmp; reflexivity.
Qed.

Lemma ball_update_refreshes_hitbox_witness :
  exists e2 : Ball.env,
    Ball.update start_paddles rally_env = Some (tt, e2)
    /\ synced (Ball.base (Ball.self e2)).
Proof.
  destruct (ball_update_refreshes_hitbox start_paddles rally_env rally_env
              rally_env_check) as (e2 & E & S & _).
  exists e2. split; assumption.
Defined.

(** X6.  The speed is linear in the bounce counter and the ball moves by
    exactly its speed: after the collision check has left [bounces] bounces,
    the update sets [shift = base_speed + bounces * 0.25], keeps direction
    and bounce counter, and moves the ball from where the check left it by a
    vector of length [shift] along the direction. *)
Theorem ball_moves_by_its_speed
  (ps : list Paddle.t) (e e1 : Ball.env) :
  Ball.check_collisions ps e = Some (tt, e1) ->
  exists e2 : Ball.env,
    Ball.update ps e = Some (tt, e2)
    /\ let b1 := Ball.self e1 in
       let b2 := Ball.self e2 in
       let dx := Sprite.x (Ball.base b2) - Sprite.x (Ball.base b1) in
       let dy := Sprite.y (Ball.base b2) - Sprite.y (Ball.base b1) in
       Ball.shift b2
       = IZR (Ball.base_speed b1) + IZR (Ball.bounces b1) * BALL_SPEED_INCREASE
       /\ Ball.bounces b2 = Ball.bounces b1
       /\ Ball.dir b2 = Ball.dir b1
       /\ dx = Ball.shift b2 * cos (radians (Ball.dir b1))
       /\ dy = Ball.shift b2 * sin (radians (Ball.dir b1))
       /\ dx * dx + dy * dy = Ball.shift b2 * Ball.shift b2.
Proof.
  intros E. rewrite (update_after_check ps e e1 E).
  eexists. split; [ reflexivity | ]. cbn.
  repeat (split; [ try reflexivity; ring | ]).
  pose proof (sin2_cos2 (radians (Ball.dir (Ball.self e1)))) as T.
  unfold Rsqr in T.
  set (c := cos _) in *. set (s := sin _) in *.
  set (v := IZR _ + _).
  replace ((Sprite.x (Ball.base (Ball.self e1)) + v * c
            - Sprite.x (Ball.base (Ball.self e1)))) with (v * c) by ring.
  replace ((Sprite.y (Ball.base (Ball.self e1)) + v * s
            - Sprite.y (Ball.base (Ball.self e1)))) with (v * s) by ring.
  replace (v * c * (v * c) + v * s * (v * s)) with (v * v * (s * s + c * c)) by ring.
  rewrite T. ring.
Qed.

Lemma ball_moves_by_its_speed_witness :
  exists e2 : Ball.env,
    Ball.update start_paddles rally_env = Some (tt, e2)
    /\ Ball.shift (Ball.self e2) = 10 + 0 * BALL_SPEED_INCREASE.
Proof.
  destruct (ball_moves_by_its_speed start_paddles rally_env rally_env
              rally_env_check) as (e2 & E & Sh & _).
  exists e2. split; [ exact E | exact Sh ].
Defined.

(** ** Bounces and points *)

Lemma paddle_loop_count (ps : list Paddle.t) :
  Forall nonzero_width ps ->
  forall e : Ball.env,
  exists (b' : Ball.t) (g' : Random.t),
    for_each ps Ball.bounce_off e
    = Some (tt, Ball.mkEnv b' (Ball.scores e) g' (Ball.trace e))
    /\ Ball.base b' = Ball.base (Ball.self e)
    /\ Ball.bounces b'
       = (Ball.bounces (Ball.self e)
          + Z.of_nat (count_hits (Sprite.hitbox (Ball.base (Ball.self e))) ps))%Z.
Proof.
  induction 1 as [ | p ps W _ IH ]; intros e.
  - exists (Ball.self e), (Ball.rng e). destruct e; cbn.
    repeat split; auto; lia.
  - cbn [for_each]. unfold bind, count_hits. cbn [filter].
    fold (Ball.hits (Ball.self e) p).
    destruct (Ball.hits (Ball.self e) p) eqn:Hh.
    + destruct (bounce_off_hit p e Hh W) as (j & g & E & _).
      cbv zeta in E. rewrite E.
      match goal with |- context [for_each ps _ ?e1] =>
        destruct (IH e1) as (b' & g' & E' & B & Bn) end.
      cbn in *. exists b', g'. rewrite E'.
      split; [ reflexivity | ]. split; [ exact B | ].
      rewrite Bn. unfold count_hits. lia.
    + rewrite (bounce_off_miss p e Hh).
      destruct (IH e) as (b' & g' & E' & B & Bn).
      exists b', g'. rewrite E'. auto.
Qed.

(** X7.  The bounce counter after the collision check (two scorekeepers, no
    paddle of width zero): it restarts from 0 when a goal is taken and from
    its old value otherwise, and one is added for every paddle that the
    ball's hitbox meets in the paddle loop. *)
Theorem bounces_after_check (ps : list Paddle.t) (e : Ball.env) :
  (2 <= List.length (Ball.scores e))%nat ->
  Forall nonzero_width ps ->
  exists e1 : Ball.env,
    Ball.check_collisions ps e = Some (tt, e1)
    /\ Ball.bounces (Ball.self e1)
       = ((if goal_taken (Ball.self e) then 0 else Ball.bounces (Ball.self e))
          + Z.of_nat (count_hits (hitbox_after_goals (Ball.self e)) ps))%Z
    /\ (goal_taken (Ball.self e) = false ->
        (Ball.bounces (Ball.self e) <= Ball.bounces (Ball.self e1)
         <= Ball.bounces (Ball.self e) + Z.of_nat (List.length ps))%Z).
Proof.
  intros L W.
  assert (C : forall hb, (count_hits hb ps <= List.length ps)%nat).
  { intros hb. unfold count_hits. apply filter_length_le. }
  assert (K : exists e0 : Ball.env,
             Ball.walls_and_goals e = Some (tt, e0)
             /\ Sprite.hitbox (Ball.base (Ball.self e0))
                = hitbox_after_goals (Ball.self e)
             /\ Ball.bounces (Ball.self e0)
                = if goal_taken (Ball.self e) then 0%Z
                  else Ball.bounces (Ball.self e)).
  { unfold hitbox_after_goals, goal_taken.
    destruct (Ball.at_wall (Ball.self e)) eqn:Hw.
    - rewrite (wall_branch e Hw). eexists. split; [ reflexivity | ]. auto.
    - destruct (Ball.at_bottom_goal (Ball.self e)) eqn:Hb.
      + destruct (update_at_spec Scorekeeper.scored (Ball.scores e) 0)
          as (ss & U & _); [ lia | ].
        destruct (bottom_goal_branch e ss Hw Hb U) as (d & g & E & _).
        rewrite E. eexists. split; [ reflexivity | ]. auto.
      + destruct (Ball.at_top_goal (Ball.self e)) eqn:Ht.
        * destruct (update_at_spec Scorekeeper.scored (Ball.scores e) 1)
            as (ss & U & _); [ lia | ].
          destruct (top_goal_branch e ss Hw Hb Ht U) as (d & g & E & _).
          rewrite E. eexists. split; [ reflexivity | ]. auto.
        * rewrite (no_branch e Hw Hb Ht). exists e. auto. }
  destruct K as (e0 & E0 & Hh & Hb).
  destruct (paddle_loop_count ps W e0) as (b' & g' & E1 & _ & Bn).
  unfold Ball.check_collisions, bind. rewrite E0, E1.
  eexists. split; [ reflexivity | ]. cbn [Ball.self].
  rewrite Bn, Hh, Hb. split; [ reflexivity | ].
  intros G. rewrite G. specialize (C (hitbox_after_goals (Ball.self e))). lia.
Qed.

Lemma bounces_after_check_witness :
  exists e1 : Ball.env,
    Ball.check_collisions [bottom_paddle] (env_at 10 (-240) 270) = Some (tt, e1)
    /\ Ball.bounces (Ball.self e1)
       = ((if goal_taken (ball_at 10 (-240) 270) then 0 else 0)
          + Z.of_nat (count_hits (hitbox_after_goals (ball_at 10 (-240) 270))
                                 [bottom_paddle]))%Z.
Proof.
  destruct (bounces_after_check [bottom_paddle] (env_at 10 (-240) 270))
    as (e1 & E & B & _).
  - cbn. lia.
  - repeat constructor. discriminate.
  - exists e1. split; assumption.
Defined.

Lemma total_score_cons (s : Scorekeeper.t) (ss : list Scorekeeper.t) :
  total_score (s :: ss) = (Scorekeeper.score s + total_score ss)%Z.
Proof. reflexivity. Qed.

Lemma total_score_update_at (i : nat) (xs ys : list Scorekeeper.t) :
  update_at i Scorekeeper.scored xs = Some ys ->
  total_score ys = (total_score xs + 1)%Z.
Proof.
  revert i ys. induction xs as [ | s xs IH ]; intros i ys U;
    [ destruct i; discriminate | ].
  destruct i as [ | i ]; cbn in U.
  - injection U as <-. rewrite !total_score_cons.
    unfold Scorekeeper.scored. cbn [Scorekeeper.score]. lia.
  - destruct (update_at i Scorekeeper.scored xs) as [ zs | ] eqn:E;
      [ | discriminate ].
    injection U as <-. rewrite !total_score_cons, (IH i zs E). lia.
Qed.

Lemma ball_update_points (ps : list Paddle.t) (e : Ball.env) :
  (2 <= List.length (Ball.scores e))%nat ->
  Forall nonzero_width ps ->
  exists e2 : Ball.env,
    Ball.update ps e = Some (tt, e2)
    /\ List.length (Ball.scores e2) = List.length (Ball.scores e)
    /\ total_score (Ball.scores e2)
       = (total_score (Ball.scores e)
          + if goal_taken (Ball.self e) then 1 else 0)%Z
    /\ (goal_taken (Ball.self e) = false -> Ball.scores e2 = Ball.scores e).
Proof.
  intros L W.
  assert (K : exists e0 : Ball.env,
             Ball.walls_and_goals e = Some (tt, e0)
             /\ List.length (Ball.scores e0) = List.length (Ball.scores e)
             /\ total_score (Ball.scores e0)
                = (total_score (Ball.scores e)
                   + if goal_taken (Ball.self e) then 1 else 0)%Z
             /\ (goal_taken (Ball.self e) = false ->
                 Ball.scores e0 = Ball.scores e)).
  { unfold goal_taken.
    destruct (Ball.at_wall (Ball.self e)) eqn:Hw.
    - rewrite (wall_branch e Hw). eexists. split; [ reflexivity | ].
      cbn [Ball.scores andb negb]. repeat split; auto; lia.
    - destruct (Ball.at_bottom_goal (Ball.self e)) eqn:Hb.
      + destruct (update_at_spec Scorekeeper.scored (Ball.scores e) 0)
          as (ss & U & Ls & _); [ lia | ].
        destruct (bottom_goal_branch e ss Hw Hb U) as (d & g & E & _).
        rewrite E. eexists. split; [ reflexivity | ].
        cbn [Ball.scores andb negb orb].
        split; [ exact Ls | ].
        split; [ apply (total_score_update_at 0), U | discriminate ].
      + destruct (Ball.at_top_goal (Ball.self e)) eqn:Ht.
        * destruct (update_at_spec Scorekeeper.scored (Ball.scores e) 1)
            as (ss & U & Ls & _); [ lia | ].
          destruct (top_goal_branch e ss Hw Hb Ht U) as (d & g & E & _).
          rewrite E. eexists. split; [ reflexivity | ].
          cbn [Ball.scores andb negb orb].
          split; [ exact Ls | ].
          split; [ apply (total_score_update_at 1), U | discriminate ].
        * rewrite (no_branch e Hw Hb Ht). exists e.
          cbn [Ball.scores andb negb orb]. repeat split; auto; lia. }
  destruct K as (e0 & E0 & L0 & T0 & S0).
  destruct (paddle_loop_spec ps W e0) as (b' & g' & E1 & _).
  assert (E : Ball.check_collisions ps e
              = Some (tt, Ball.mkEnv b' (Ball.scores e0) g' (Ball.trace e0))).
  { unfold Ball.check_collisions, bind. rewrite E0. exact E1. }
  rewrite (update_after_check ps e _ E).
  eexists. split; [ reflexivity | ]. cbn [Ball.scores]. auto.
Qed.

(** X8.  An update of the ball (two scorekeepers, no paddle of width zero)
    credits at most one point: the sum of the scores grows by 1 when a goal
    is taken and is unchanged otherwise, the number of scorekeepers is kept,
    and without a goal the scorekeepers are left exactly as they were. *)
Theorem one_point_per_update (ps : list Paddle.t) (e : Ball.env) :
  (2 <= List.length (Ball.scores e))%nat ->
  Forall nonzero_width ps ->
  exists e2 : Ball.env,
    Ball.update ps e = Some (tt, e2)
    /\ List.length (Ball.scores e2) = List.length (Ball.scores e)
    /\ total_score (Ball.scores e2)
       = (total_score (Ball.scores e)
          + if goal_taken (Ball.self e) then 1 else 0)%Z
    /\ (goal_taken (Ball.self e) = false -> Ball.scores e2 = Ball.scores e).
Proof. exact (ball_update_points ps e). Qed.

Lemma one_point_per_update_witness :
  exists e2 : Ball.env,
    Ball.update start_paddles goal_env = Some (tt, e2)
    /\ total_score (Ball.scores e2)
       = (total_score (Ball.scores goal_env)
          + if goal_taken (Ball.self goal_env) then 1 else 0)%Z.
Proof.
  destruct (one_point_per_update start_paddles goal_env)
    as (e2 & E & _ & T & _).
  - cbn. lia.
  - repeat constructor; discriminate.
  - exists e2. split; assumption.
Defined.

(** ** The top goal and the goals that raise *)

(** X9.  The top goal as the code tests it: with the ball's hitbox clear of
    the side walls, its bottom edge above [BOTTOM + 10] and its top edge at
    or above [TOP], the collision check credits exactly one point to
    [scores[1]], leaves [scores[0]] and the others alone, and re-centres the
    ball with no bounces (no paddle overlapping the re-centred ball). *)
Theorem top_goal_scores
  (ps : list Paddle.t) (e : Ball.env) (s0 s1 : Scorekeeper.t)
  (rest : list Scorekeeper.t) :
  let b := Ball.self e in
  clear_of_walls b ->
  IZR (BOTTOM + 10) < min_y (Sprite.hitbox (Ball.base b)) ->
  max_y (Sprite.hitbox (Ball.base b)) >= IZR TOP ->
  Ball.scores e = s0 :: s1 :: rest ->
  centre_free b ps ->
  exists (e1 : Ball.env) (s1' : Scorekeeper.t),
    Ball.check_collisions ps e = Some (tt, e1)
    /\ Ball.scores e1 = s0 :: s1' :: rest
    /\ Scorekeeper.score s1' = (Scorekeeper.score s1 + 1)%Z
    /\ Sprite.x (Ball.base (Ball.self e1)) = 0
    /\ Sprite.y (Ball.base (Ball.self e1)) = 0
    /\ Ball.bounces (Ball.self e1) = 0%Z
    /\ Ball.shift (Ball.self e1) = IZR (Ball.base_speed b)
    /\ launch_dir (Ball.dir (Ball.self e1)).
Proof.
  intros b Hw Hb Ht Hs Hm.
  apply at_wall_false in Hw. apply at_bottom_goal_false in Hb.
  apply at_top_goal_true in Ht.
  destruct (top_goal_branch e (s0 :: Scorekeeper.scored s1 :: rest) Hw Hb Ht)
    as (d & g & E & Hd); [ rewrite Hs; reflexivity | ].
  exists (Ball.mkEnv (served b (IZR d)) (s0 :: Scorekeeper.scored s1 :: rest) g
            (Ball.trace e ++ [draw (served b (IZR d)); Sleep])),
    (Scorekeeper.scored s1).
  split.
  { unfold Ball.check_collisions, bind. rewrite E.
    apply paddle_loop_all_miss. exact Hm. }
  repeat (split; [ reflexivity | ]).
  cbn. destruct Hd as [[Lo Hi] | [Lo Hi]]; apply IZR_le in Lo, Hi;
    [ left | right ]; lra.
Qed.

Lemma top_goal_scores_witness :
  exists (e1 : Ball.env) (s1' : Scorekeeper.t),
    Ball.check_collisions start_paddles (env_at 0 294 90) = Some (tt, e1)
    /\ Ball.scores e1 = [score1; s1']
    /\ Scorekeeper.score s1' = 1%Z.
Proof.
  destruct (top_goal_scores start_paddles (env_at 0 294 90) score1 score2 [])
    as (e1 & s1' & E & S & Sc & _).
  - split; cbn; rewrite ?LEFT_val, ?RIGHT_val; unfold BALL_SIZE; lra.
  - cbn. rewrite BOTTOM_val. unfold BALL_SIZE. cbn. lra.
  - cbn. rewrite TOP_val. unfold BALL_SIZE. lra.
  - reflexivity.
  - apply start_paddles_centre_free.
  - exists e1, s1'. repeat split; assumption.
Defined.

(** X10.  A goal without its scorekeeper raises: away from the side walls,
    the collision check returns nothing at the bottom goal line when the
    list of scorekeepers is empty, and at the top goal line when it holds
    fewer than two; so does the update. *)
Theorem goal_without_scorekeeper_raises (ps : list Paddle.t) (e : Ball.env) :
  clear_of_walls (Ball.self e) ->
  (min_y (Sprite.hitbox (Ball.base (Ball.self e))) <= IZR (BOTTOM + 10)
   /\ Ball.scores e = [])
  \/ (IZR (BOTTOM + 10) < min_y (Sprite.hitbox (Ball.base (Ball.self e)))
      /\ max_y (Sprite.hitbox (Ball.base (Ball.self e))) >= IZR TOP
      /\ (List.length (Ball.scores e) <= 1)%nat) ->
  Ball.check_collisions ps e = None /\ Ball.update ps e = None.
Proof.
  intros Hw H. apply at_wall_false in Hw.
  assert (E : Ball.check_collisions ps e = None).
  { unfold Ball.check_collisions, Ball.walls_and_goals, bind, get.
    cbv beta iota. rewrite Hw.
    destruct H as [(Hb & Hs) | (Hb & Ht & Hs)].
    - apply at_bottom_goal_true in Hb. rewrite Hb.
      unfold Ball.on_self, modify, Ball.credit. cbv beta iota.
      cbn [Ball.scores]. rewrite Hs. reflexivity.
    - apply at_bottom_goal_false in Hb. apply at_top_goal_true in Ht.
      rewrite Hb, Ht.
      unfold Ball.on_self, modify, Ball.credit. cbv beta iota.
      cbn [Ball.scores]. rewrite (update_at_None _ _ 1 Hs). reflexivity. }
  split; [ exact E | apply update_None, E ].
Qed.

Lemma goal_without_scorekeeper_raises_witness :
  Ball.update start_paddles
    (Ball.mkEnv (ball_at 0 (-289) 270) [] zeros []) = None.
Proof.
  refine (proj2 (goal_without_scorekeeper_raises start_paddles
                   (Ball.mkEnv (ball_at 0 (-289) 270) [] zeros []) _ _)).
  - exact goal_env_clear.
  - left. split; [ exact goal_env_at_goal | reflexivity ].
Defined.

Lemma bounce_off_base (p : Paddle.t) (e e' : Ball.env) :
  Ball.bounce_off p e = Some (tt, e') ->
  Ball.base (Ball.self e') = Ball.base (Ball.self e).
Proof.
  intros E. destruct (Ball.hits (Ball.self e) p) eqn:Hh.
  - destruct (Z.eq_dec (Sprite.width (Paddle.base p)) 0) as [W | W].
    + rewrite (bounce_off_zero_width p e Hh W) in E. discriminate.
    + destruct (bounce_off_hit p e Hh W) as (j & g & E' & _). cbv zeta in E'.
      rewrite E' in E. injection E as <-. reflexivity.
  - rewrite (bounce_off_miss p e Hh) in E. injection E as <-. reflexivity.
Qed.

(** X11.  A paddle of width zero makes the paddle loop raise as soon as the
    ball's hitbox meets it, wherever it stands in the list of paddles: the
    loop returns nothing, and neither do the collision check and the update
    when no goal re-centres the ball first. *)
Theorem zero_width_paddle_raises
  (ps : list Paddle.t) (p : Paddle.t) (e : Ball.env) :
  In p ps ->
  Sprite.width (Paddle.base p) = 0%Z ->
  Ball.hits (Ball.self e) p = true ->
  for_each ps Ball.bounce_off e = None
  /\ (goal_taken (Ball.self e) = false ->
      Ball.check_collisions ps e = None /\ Ball.update ps e = None).
Proof.
  intros Hin W Hh.
  assert (Lp : forall e0 : Ball.env,
             Ball.base (Ball.self e0) = Ball.base (Ball.self e) ->
             for_each ps Ball.bounce_off e0 = None).
  { induction ps as [ | q ps IH ]; [ destruct Hin | ].
    intros e0 B. cbn [for_each]. unfold bind.
    destruct (Ball.bounce_off q e0) as [ [[] e1] | ] eqn:E; [ | reflexivity ].
    destruct Hin as [ -> | Hin ].
    - rewrite bounce_off_zero_width in E; [ discriminate | | exact W ].
      unfold Ball.hits in *. rewrite B. exact Hh.
    - apply IH; [ exact Hin | ].
      rewrite (bounce_off_base q e0 e1 E). exact B. }
  split; [ apply Lp; reflexivity | ].
  intros G.
  assert (E : Ball.check_collisions ps e = None).
  { unfold Ball.check_collisions, bind. unfold goal_taken in G.
    destruct (Ball.at_wall (Ball.self e)) eqn:Hw.
    - rewrite (wall_branch e Hw). apply Lp. reflexivity.
    - cbn in G. apply orb_false_iff in G. destruct G as (Hb & Ht).
      rewrite (no_branch e Hw Hb Ht). apply Lp. reflexivity. }
  split; [ exact E | apply update_None, E ].
Qed.

Lemma zero_width_paddle_raises_witness :
  for_each [top_paddle; Paddle.init 0 PADDLE_HEIGHT 0 (- 250) 5]
           Ball.bounce_off (env_at 0 (-240) 270) = None.
Proof.
  refine (proj1 (zero_width_paddle_raises _
                   (Paddle.init 0 PADDLE_HEIGHT 0 (- 250) 5)
                   (env_at 0 (-240) 270) _ _ _)).
  - right. left. reflexivity.
  - reflexivity.
  - unfold Ball.hits, Ball.overlap. cbn. unfold BALL_SIZE, PADDLE_HEIGHT.
    eval_cmp. reflexivity.
Defined.

(** ** Directions *)

Lemma sin_radians_pos (d : R) : 0 < d < 180 -> 0 < sin (radians d).
Proof.
  intros [Lo Hi]. pose proof PI_RGT_0 as P. unfold radians.
  apply sin_gt_0; nra.
Qed.

Lemma sin_radians_neg (d : R) : 180 < d < 360 -> sin (radians d) < 0.
Proof.
  intros [Lo Hi]. pose proof PI_RGT_0 as P. unfold radians.
  apply sin_lt_0; nra.
Qed.

(** X12.  A launch is never horizontal: after [reset], and after the
    creation of the ball, the direction is either in [25, 155] with a
    positive vertical component (upwards) or in [205, 335] with a negative
    one (downwards), whatever the random source yields. *)
Theorem launch_has_vertical_speed :
  let vertical (d : R) :=
    (25 <= d <= 155 /\ 0 < sin (radians d))
    \/ (205 <= d <= 335 /\ sin (radians d) < 0) in
  (forall e : Ball.env,
      exists e', Ball.reset e = Some (tt, e')
                 /\ vertical (Ball.dir (Ball.self e')))
  /\ (forall (size speed : Z) (ss : list Scorekeeper.t) (g : Random.t),
        exists e', Ball.init size speed ss g = Some e'
                   /\ vertical (Ball.dir (Ball.self e'))).
Proof.
  intros vertical.
  assert (V : forall d : Z,
             (25 <= d <= 155)%Z \/ (205 <= d <= 335)%Z -> vertical (IZR d)).
  { intros d [[Lo Hi] | [Lo Hi]]; apply IZR_le in Lo, Hi; [ left | right ];
      (split; [ lra | ]).
    - apply sin_radians_pos; lra.
    - apply sin_radians_neg; lra. }
  split.
  - intros e. destruct (reset_spec e) as (d & g & E & Hd).
    eexists; split; [ exact E | ]. apply V, Hd.
  - intros size speed ss g. unfold Ball.init.
    match goal with |- context [Ball.rand_dir ?e0] =>
      destruct (rand_dir_spec e0) as (d & g' & E & Hd) end.
    rewrite E. eexists; split; [ reflexivity | ]. apply V, Hd.
Qed.

(** X13.  A paddle sends the ball back.  When the hitboxes of the ball and of
    the paddle it meets are in place and the ball is less than 4/9 as wide as
    the paddle (12 against 80 in [main]), the direction after the bounce is
    strictly between 0 and 180 for a paddle in the lower half, so that the
    ball goes up, and strictly between 180 and 360 for a paddle in the upper
    half, so that it goes down, whatever the jitter. *)
Theorem paddle_sends_ball_back (p : Paddle.t) (e : Ball.env) :
  Ball.hits (Ball.self e) p = true ->
  synced (Ball.base (Ball.self e)) ->
  synced (Paddle.base p) ->
  (0 <= Sprite.width (Ball.base (Ball.self e)))%Z ->
  (9 * Sprite.width (Ball.base (Ball.self e))
   < 4 * Sprite.width (Paddle.base p))%Z ->
  exists e' : Ball.env,
    Ball.bounce_off p e = Some (tt, e')
    /\ (Sprite.y (Paddle.base p) < 0 ->
        0 < Ball.dir (Ball.self e') < 180
        /\ 0 < sin (radians (Ball.dir (Ball.self e'))))
    /\ (0 <= Sprite.y (Paddle.base p) ->
        180 < Ball.dir (Ball.self e') < 360
        /\ sin (radians (Ball.dir (Ball.self e'))) < 0).
Proof.
  intros Hh Sb Sp Wb Wr.
  assert (Wp : (0 < Sprite.width (Paddle.base p))%Z) by lia.
  destruct (bounce_off_hit p e Hh) as (j & g & E & Hj); [ lia | ].
  cbv zeta in E. eexists. split; [ exact E | ].
  cbn [Ball.self Ball.dir]. unfold bounce_dir.
  unfold Ball.hits, Ball.overlap in Hh.
  apply andb_true_iff in Hh. destruct Hh as (Hh & H4).
  apply andb_true_iff in Hh. destruct Hh as (_ & H3).
  apply Rleb_true in H3. apply Rgeb_true in H4.
  rewrite Sb, Sp in H3, H4. unfold Sprite.box in H3, H4. cbn [min_x max_x] in H3, H4.
  set (pw := IZR (Sprite.width (Paddle.base p))) in *.
  set (bw := IZR (Sprite.width (Ball.base (Ball.self e)))) in *.
  set (D := Sprite.x (Paddle.base p) - Sprite.x (Ball.base (Ball.self e))).
  assert (Hpw : 0 < pw) by (apply IZR_lt in Wp; exact Wp).
  assert (Hbw : 0 <= bw) by (apply IZR_le in Wb; exact Wb).
  assert (Hr : 9 * bw < 4 * pw).
  { apply IZR_lt in Wr. rewrite !mult_IZR in Wr. exact Wr. }
  assert (K : IZR BOUNCE_SHARPNESS * D / pw = 90 * (D / pw))
    by (unfold BOUNCE_SHARPNESS; field; lra).
  assert (T : -13 / 18 < D / pw < 13 / 18).
  { subst D. split.
    - apply (Rmult_lt_reg_r pw); [ exact Hpw | ].
      unfold Rdiv at 2. rewrite Rmult_assoc, Rinv_l by lra. lra.
    - apply (Rmult_lt_reg_r pw); [ exact Hpw | ].
      unfold Rdiv at 1. rewrite Rmult_assoc, Rinv_l by lra. lra. }
  cbv zeta. fold D. rewrite K.
  destruct Hj as [Jlo Jhi]. apply IZR_le in Jlo, Jhi.
  unfold BOUNCE_RAND_FACTOR in Jlo, Jhi. rewrite opp_IZR in Jlo.
  split; intros Hy.
  - apply Rltb_true in Hy. rewrite Hy.
    assert (0 < 90 + 90 * (D / pw) + IZR j < 180) by lra.
    split; [ assumption | apply sin_radians_pos; assumption ].
  - apply Rltb_false in Hy. rewrite Hy.
    assert (180 < 270 - 90 * (D / pw) + IZR j < 360) by lra.
    split; [ assumption | apply sin_radians_neg; assumption ].
Qed.

Lemma paddle_sends_ball_back_witness :
  exists e' : Ball.env,
    Ball.bounce_off bottom_paddle (env_at 10 (-240) 270) = Some (tt, e')
    /\ 0 < sin (radians (Ball.dir (Ball.self e'))).
Proof.
  destruct (paddle_sends_ball_back bottom_paddle (env_at 10 (-240) 270))
    as (e' & E & Up & _).
  - exact hits_bottom_paddle.
  - reflexivity.
  - reflexivity.
  - discriminate.
  - reflexivity.
  - exists e'. split; [ exact E | ]. apply Up. cbn. lra.
Defined.

Lemma wall_reflect_range (theta : R) : -180 < wall_reflect theta <= 180.
Proof.
  unfold wall_reflect.
  destruct (py_mod_range theta 360) as [Lo Hi]; lra.
Qed.

(** X14.  The wall reflection keeps the direction in (-180, 180] and is its
    own inverse on the velocity: at a side wall the wall branch of the
    collision check returns, leaves everything but the direction alone, and
    run a second time it gives back the horizontal and the vertical velocity
    component of the start. *)
Theorem wall_bounce_twice (e : Ball.env) :
  touches_wall (Ball.self e) ->
  exists e1 e2 : Ball.env,
    Ball.walls_and_goals e = Some (tt, e1)
    /\ Ball.walls_and_goals e1 = Some (tt, e2)
    /\ -180 < Ball.dir (Ball.self e1) <= 180
    /\ -180 < Ball.dir (Ball.self e2) <= 180
    /\ cos (radians (Ball.dir (Ball.self e2)))
       = cos (radians (Ball.dir (Ball.self e)))
    /\ sin (radians (Ball.dir (Ball.self e2)))
       = sin (radians (Ball.dir (Ball.self e)))
    /\ e2 = Ball.mkEnv (Ball.set_dir (Ball.self e) (Ball.dir (Ball.self e2)))
                       (Ball.scores e) (Ball.rng e) (Ball.trace e).
Proof.
  intros Hw. apply at_wall_true in Hw.
  pose proof (wall_branch e Hw) as E1.
  match type of E1 with _ = Some (tt, ?x) => set (e1 := x) in * end.
  assert (Hw1 : Ball.at_wall (Ball.self e1) = true) by exact Hw.
  pose proof (wall_branch e1 Hw1) as E2.
  eexists; eexists. split; [ exact E1 | ]. split; [ exact E2 | ].
  cbn [Ball.self Ball.dir Ball.set_dir e1].
  fold (wall_reflect (Ball.dir (Ball.self e))).
  fold (wall_reflect (wall_reflect (Ball.dir (Ball.self e)))).
  split; [ apply wall_reflect_range | ].
  split; [ apply wall_reflect_range | ].
  unfold wall_reflect.
  rewrite cos_reflected, cos_reflected, sin_reflected, sin_reflected.
  repeat split. lra.
Qed.

Lemma wall_bounce_twice_witness :
  exists e1 e2 : Ball.env,
    Ball.walls_and_goals (env_at (-294) 0 45) = Some (tt, e1)
    /\ Ball.walls_and_goals e1 = Some (tt, e2)
    /\ cos (radians (Ball.dir (Ball.self e2))) = cos (radians 45).
Proof.
  destruct (wall_bounce_twice (env_at (-294) 0 45))
    as (e1 & e2 & E1 & E2 & _ & _ & C & _).
  - left. cbn. rewrite LEFT_val. unfold BALL_SIZE. lra.
  - exists e1, e2. repeat split; assumption.
Defined.

(** ** The AI paddle *)

(** Once speed and intents are chosen, [update] keeps them and moves the
    paddle by [ai_displacement]. *)
Lemma ai_update_after_decide
  (b : Ball.t) (a a1 : AIPaddle.t) (g g1 : Random.t) :
  AIPaddle.decide b a g = Some (a1, g1) ->
  exists (a' : AIPaddle.t) (ev : list Event),
    AIPaddle.update b a g = Some (a', g1, ev)
    /\ Paddle.moving_left (AIPaddle.base a') = Paddle.moving_left (AIPaddle.base a1)
    /\ Paddle.moving_right (AIPaddle.base a') = Paddle.moving_right (AIPaddle.base a1)
    /\ Paddle.shift (AIPaddle.base a') = Paddle.shift (AIPaddle.base a1)
    /\ AIPaddle.base_speed a' = AIPaddle.base_speed a1
    /\ AIPaddle.sees_ball a' = AIPaddle.sees_ball a1
    /\ AIPaddle.rand_dir_set a' = AIPaddle.rand_dir_set a1
    /\ Sprite.x (Paddle.base (AIPaddle.base a'))
       = Sprite.x (Paddle.base (AIPaddle.base a1))
         + ai_displacement (AIPaddle.base a1).
Proof.
  intros D. unfold AIPaddle.update. rewrite D.
  set (p := AIPaddle.base a1).
  destruct (Paddle.update (AIPaddle.premove p)) as [p' ev] eqn:U.
  eexists; eexists. split; [ reflexivity | ]. cbn [AIPaddle.base
    AIPaddle.base_speed AIPaddle.sees_ball AIPaddle.rand_dir_set].
  destruct (update_flags (AIPaddle.premove p)) as (FL & FR & FS).
  pose proof (update_x (AIPaddle.premove p)) as X.
  rewrite U in FL, FR, FS, X. cbn [fst] in FL, FR, FS, X.
  destruct (premove_frame p) as (H & _ & _ & _ & Sh & L & Rt).
  rewrite FL, FR, FS, L, Rt, Sh.
  repeat (split; [ reflexivity | ]).
  rewrite X, steer_x, left_x, right_x, H, Sh, L, Rt, premove_x.
  unfold ai_displacement. cbv zeta.
  destruct (Paddle.moving_left p); [ | destruct (Paddle.moving_right p) ];
    repeat match goal with |- context [if ?c then _ else _] => destruct c end;
    lra.
Qed.

Lemma decide_sees (b : Ball.t) (a : AIPaddle.t) (g : Random.t) :
  ai_sees b a ->
  AIPaddle.decide b a g
  = Some (AIPaddle.set_rand_dir_set
            (AIPaddle.set_dir b
               (AIPaddle.on_base
                  (fun p => Paddle.set_shift p (AIPaddle.base_speed a))
                  (AIPaddle.set_sees_ball a true)))
            false, g).
Proof.
  intros Hs. apply Rltb_true in Hs. unfold AIPaddle.decide.
  rewrite Hs. reflexivity.
Qed.

Lemma decide_blind (b : Ball.t) (a : AIPaddle.t) (g : Random.t) :
  ~ ai_sees b a ->
  AIPaddle.decide b a g
  = if AIPaddle.rand_dir_set a
    then Some (AIPaddle.set_sees_ball a false, g)
    else match AIPaddle.rand_dir (AIPaddle.set_sees_ball a false) g with
         | Some (a2, g1) => Some (AIPaddle.set_rand_dir_set a2 true, g1)
         | None => None
         end.
Proof.
  intros Hs. unfold AIPaddle.decide.
  replace (Rltb _ (IZR AI_VISIBILITY_RANGE)) with false
    by (symmetry; apply Rltb_false; unfold ai_sees in Hs; lra).
  cbn [AIPaddle.sees_ball AIPaddle.set_sees_ball AIPaddle.rand_dir_set].
  destruct (AIPaddle.rand_dir_set a); reflexivity.
Qed.

(** X15.  The deadband: with the ball in sight and the paddle within
    [1.5 * base_speed] of it, the update sets the shift to 0 and the paddle
    stays where it is, whatever its intents were; they are kept, no random
    number is drawn and the latch of the random walk is released. *)
Theorem ai_deadband_holds_position
  (b : Ball.t) (a : AIPaddle.t) (g : Random.t) :
  ai_sees b a ->
  ai_aligned b a ->
  exists (a' : AIPaddle.t) (ev : list Event),
    AIPaddle.update b a g = Some (a', g, ev)
    /\ Sprite.x (Paddle.base (AIPaddle.base a'))
       = Sprite.x (Paddle.base (AIPaddle.base a))
    /\ Paddle.shift (AIPaddle.base a') = 0%Z
    /\ Paddle.moving_left (AIPaddle.base a') = Paddle.moving_left (AIPaddle.base a)
    /\ Paddle.moving_right (AIPaddle.base a') = Paddle.moving_right (AIPaddle.base a)
    /\ AIPaddle.sees_ball a' = true
    /\ AIPaddle.rand_dir_set a' = false.
Proof.
  intros Hs Ha. pose proof (decide_sees b a g Hs) as D.
  unfold AIPaddle.set_dir in D. cbn [AIPaddle.base AIPaddle.on_base
    AIPaddle.set_sees_ball AIPaddle.base_speed Paddle.base Paddle.set_shift] in D.
  apply Rltb_true in Ha. rewrite Ha in D.
  destruct (ai_update_after_decide b a _ g g D)
    as (a' & ev & E & L & Rt & Sh & _ & Se & La & X).
  exists a', ev. split; [ exact E | ].
  cbn in L, Rt, Sh, Se, La.
  repeat (split; [ assumption | ]); try (split; assumption).
  split; [ | auto ].
  rewrite X. unfold ai_displacement. cbn.
  repeat match goal with |- context [if ?c then _ else _] => destruct c end;
    lra.
Qed.

Lemma ai_deadband_holds_position_witness :
  exists (a' : AIPaddle.t) (ev : list Event),
    AIPaddle.update (ball_at 3 0 90) ai_start zeros = Some (a', zeros, ev)
    /\ Sprite.x (Paddle.base (AIPaddle.base a')) = 0.
Proof.
  destruct (ai_deadband_holds_position (ball_at 3 0 90) ai_start zeros)
    as (a' & ev & E & X & _).
  - unfold ai_sees. cbn. rewrite AI_VISIBILITY_RANGE_val, BOTTOM_PADDLE_Y_val.
    rewrite (Rabs_left (-250 - 0)) by lra. lra.
  - unfold ai_aligned. cbn. unfold AI_PADDLE_SPEED.
    rewrite (Rabs_left (0 - 3)) by lra. lra.
  - exists a', ev. split; [ exact E | exact X ].
Defined.

(** X16.  The random walk is latched: with the ball out of sight and
    [rand_dir_set] already set, the update draws no random number and keeps
    speed and intents as they are. *)
Theorem ai_wander_is_latched (b : Ball.t) (a : AIPaddle.t) (g : Random.t) :
  ~ ai_sees b a ->
  AIPaddle.rand_dir_set a = true ->
  exists (a' : AIPaddle.t) (ev : list Event),
    AIPaddle.update b a g = Some (a', g, ev)
    /\ Paddle.shift (AIPaddle.base a') = Paddle.shift (AIPaddle.base a)
    /\ Paddle.moving_left (AIPaddle.base a') = Paddle.moving_left (AIPaddle.base a)
    /\ Paddle.moving_right (AIPaddle.base a') = Paddle.moving_right (AIPaddle.base a)
    /\ AIPaddle.sees_ball a' = false
    /\ AIPaddle.rand_dir_set a' = true.
Proof.
  intros Hs La. pose proof (decide_blind b a g Hs) as D. rewrite La in D.
  destruct (ai_update_after_decide b a _ g g D)
    as (a' & ev & E & L & Rt & Sh & _ & Se & La' & _).
  exists a', ev. cbn in *. rewrite La in La'. auto 10.
Qed.

Lemma ai_wander_is_latched_witness :
  exists (a' : AIPaddle.t) (ev : list Event),
    AIPaddle.update (ball_at 0 200 90)
                    (AIPaddle.set_rand_dir_set ai_start true) zeros
    = Some (a', zeros, ev)
    /\ Paddle.shift (AIPaddle.base a') = AI_PADDLE_SPEED.
Proof.
  destruct (ai_wander_is_latched (ball_at 0 200 90)
              (AIPaddle.set_rand_dir_set ai_start true) zeros)
    as (a' & ev & E & Sh & _).
  - unfold ai_sees. cbn. rewrite AI_VISIBILITY_RANGE_val, BOTTOM_PADDLE_Y_val.
    rewrite (Rabs_left (-250 - 200)) by lra. lra.
  - reflexivity.
  - exists a', ev. split; [ exact E | exact Sh ].
Defined.

(** X17.  The random walk is rolled once: with the ball out of sight,
    [rand_dir_set] not set and a speed [base_speed >= 0], the update draws
    exactly two random numbers, sets a shift between 0 and [base_speed] and
    exactly one of the two intents, and sets the latch. *)
Theorem ai_wander_rolls_once (b : Ball.t) (a : AIPaddle.t) (g : Random.t) :
  ~ ai_sees b a ->
  AIPaddle.rand_dir_set a = false ->
  (0 <= AIPaddle.base_speed a)%Z ->
  exists (a' : AIPaddle.t) (g' : Random.t) (ev : list Event),
    AIPaddle.update b a g = Some (a', g', ev)
    /\ Random.drawn g' = (Random.drawn g + 2)%nat
    /\ (0 <= Paddle.shift (AIPaddle.base a') <= AIPaddle.base_speed a)%Z
    /\ xorb (Paddle.moving_left (AIPaddle.base a'))
            (Paddle.moving_right (AIPaddle.base a')) = true
    /\ AIPaddle.sees_ball a' = false
    /\ AIPaddle.rand_dir_set a' = true.
Proof.
  intros Hs La Hb. pose proof (decide_blind b a g Hs) as D. rewrite La in D.
  unfold AIPaddle.rand_dir in D.
  cbn [AIPaddle.base_speed AIPaddle.set_sees_ball] in D.
  destruct (randint_range 0 (AIPaddle.base_speed a) g Hb) as (v & E1 & Hv).
  rewrite E1 in D.
  match type of D with context [Random.randint 0 1 ?g1] =>
    destruct (randint_range 0 1 g1) as (c & E2 & _); [ lia | ] end.
  rewrite E2 in D.
  destruct (ai_update_after_decide b a _ g _ D)
    as (a' & ev & E & L & Rt & Sh & _ & Se & La' & _).
  eexists a', _, ev. split; [ exact E | ].
  split; [ cbn; lia | ].
  rewrite L, Rt, Sh, Se, La'.
  destruct (c =? 1)%Z; cbn; auto.
Qed.

Lemma ai_wander_rolls_once_witness :
  exists (a' : AIPaddle.t) (g' : Random.t) (ev : list Event),
    AIPaddle.update (ball_at 0 200 90) ai_start zeros = Some (a', g', ev)
    /\ Random.drawn g' = 2%nat.
Proof.
  destruct (ai_wander_rolls_once (ball_at 0 200 90) ai_start zeros)
    as (a' & g' & ev & E & Dr & _).
  - unfold ai_sees. cbn. rewrite AI_VISIBILITY_RANGE_val, BOTTOM_PADDLE_Y_val.
    rewrite (Rabs_left (-250 - 200)) by lra. lra.
  - reflexivity.
  - discriminate.
  - exists a', g', ev. split; [ exact E | exact Dr ].
Defined.

(** X18.  A negative speed raises when the random walk is rolled: with the
    ball out of sight and [rand_dir_set] not set, [randint(0, base_speed)]
    has an empty range and the update returns nothing; with the ball in
    sight the same paddle is updated without an error. *)
Theorem ai_negative_speed_raises (b : Ball.t) (a : AIPaddle.t) (g : Random.t) :
  (AIPaddle.base_speed a < 0)%Z ->
  (~ ai_sees b a -> AIPaddle.rand_dir_set a = false ->
   AIPaddle.update b a g = None)
  /\ (ai_sees b a ->
      exists a' ev, AIPaddle.update b a g = Some (a', g, ev)).
Proof.
  intros Hb. split.
  - intros Hs La. pose proof (decide_blind b a g Hs) as D. rewrite La in D.
    unfold AIPaddle.rand_dir, Random.randint in D.
    cbn [AIPaddle.base_speed AIPaddle.set_sees_ball] in D.
    destruct (Z.leb_spec 0 (AIPaddle.base_speed a)) as [N | _]; [ lia | ].
    unfold AIPaddle.update. rewrite D. reflexivity.
  - intros Hs. pose proof (decide_sees b a g Hs) as D.
    destruct (ai_update_after_decide b a _ g g D) as (a' & ev & E & _).
    exists a', ev. exact E.
Qed.

Lemma ai_negative_speed_raises_witness :
  AIPaddle.update (ball_at 0 200 90)
                  (AIPaddle.init PADDLE_WIDTH PADDLE_HEIGHT 0 (- 250) (- 1))
                  zeros = None.
Proof.
  refine (proj1 (ai_negative_speed_raises (ball_at 0 200 90)
                   (AIPaddle.init PADDLE_WIDTH PADDLE_HEIGHT 0 (- 250) (- 1))
                   zeros _) _ _).
  - reflexivity.
  - unfold ai_sees. cbn. rewrite AI_VISIBILITY_RANGE_val.
    rewrite (Rabs_left (-250 - 200)) by lra. lra.
  - reflexivity.
Defined.

(** X19.  In sight and out of the deadband the paddle steers towards the
    ball at its base speed: a paddle to the right of the ball ends with the
    left intent alone and does not move right, any other paddle ends with the
    right intent alone and does not move left ([base_speed >= 0]). *)
Theorem ai_steers_towards_ball (b : Ball.t) (a : AIPaddle.t) (g : Random.t) :
  ai_sees b a ->
  ~ ai_aligned b a ->
  (0 <= AIPaddle.base_speed a)%Z ->
  exists (a' : AIPaddle.t) (ev : list Event),
    AIPaddle.update b a g = Some (a', g, ev)
    /\ Paddle.shift (AIPaddle.base a') = AIPaddle.base_speed a
    /\ let px := Sprite.x (Paddle.base (AIPaddle.base a)) in
       let px' := Sprite.x (Paddle.base (AIPaddle.base a')) in
       (px > Sprite.x (Ball.base b) ->
        Paddle.moving_left (AIPaddle.base a') = true
        /\ Paddle.moving_right (AIPaddle.base a') = false
        /\ px - 2 * IZR (AIPaddle.base_speed a) <= px' <= px)
       /\ (px <= Sprite.x (Ball.base b) ->
           Paddle.moving_left (AIPaddle.base a') = false
           /\ Paddle.moving_right (AIPaddle.base a') = true
           /\ px <= px' <= px + 2 * IZR (AIPaddle.base_speed a)).
Proof.
  intros Hs Ha Hb. pose proof (decide_sees b a g Hs) as D.
  unfold AIPaddle.set_dir in D. cbn [AIPaddle.base AIPaddle.on_base
    AIPaddle.set_sees_ball AIPaddle.base_speed Paddle.base Paddle.set_shift] in D.
  replace (Rltb _ (15 / 10 * _)) with false in D
    by (symmetry; apply Rltb_false; unfold ai_aligned in Ha; lra).
  apply IZR_le in Hb.
  destruct (Rgtb (Sprite.x (Paddle.base (AIPaddle.base a)))
                 (Sprite.x (Ball.base b))) eqn:C;
    destruct (ai_update_after_decide b a _ g g D)
      as (a' & ev & E & L & Rt & Sh & _ & _ & _ & X);
    exists a', ev; (split; [ exact E | ]);
    cbn in L, Rt, Sh, X; (split; [ exact Sh | ]); cbv zeta;
    [ apply Rgtb_true in C | apply Rgtb_false in C ];
    (split; intros Hx; [ | ]); try lra;
    (split; [ exact L | ]); (split; [ exact Rt | ]);
    rewrite X; unfold ai_displacement; cbn;
    repeat match goal with |- context [if ?c then _ else _] => destruct c end;
    lra.
Qed.

Lemma ai_steers_towards_ball_witness :
  exists (a' : AIPaddle.t) (ev : list Event),
    AIPaddle.update (ball_at (-100) 0 90) ai_start zeros = Some (a', zeros, ev)
    /\ Paddle.shift (AIPaddle.base a') = AI_PADDLE_SPEED.
Proof.
  destruct (ai_steers_towards_ball (ball_at (-100) 0 90) ai_start zeros)
    as (a' & ev & E & Sh & _).
  - unfold ai_sees. cbn. rewrite AI_VISIBILITY_RANGE_val, BOTTOM_PADDLE_Y_val.
    rewrite (Rabs_left (-250 - 0)) by lra. lra.
  - unfold ai_aligned. cbn. unfold AI_PADDLE_SPEED.
    rewrite (Rabs_pos_eq (0 - -100)) by lra. lra.
  - discriminate.
  - exists a', ev. split; [ exact E | exact Sh ].
Defined.

Lemma decide_exclusive
  (b : Ball.t) (a a1 : AIPaddle.t) (g g1 : Random.t) :
  AIPaddle.decide b a g = Some (a1, g1) ->
  Paddle.moving_left (AIPaddle.base a) && Paddle.moving_right (AIPaddle.base a)
  = false ->
  Paddle.moving_left (AIPaddle.base a1) && Paddle.moving_right (AIPaddle.base a1)
  = false.
Proof.
  unfold AIPaddle.decide, AIPaddle.set_dir, AIPaddle.rand_dir.
  cbn [AIPaddle.sees_ball AIPaddle.set_sees_ball AIPaddle.rand_dir_set
       AIPaddle.base_speed AIPaddle.base AIPaddle.on_base].
  intros D Ex.
  destruct (Rltb _ (IZR AI_VISIBILITY_RANGE)).
  - destruct (Rltb _ (15 / 10 * _)); [ | destruct (Rgtb _ _) ];
      injection D as <- _; cbn; auto.
  - destruct (AIPaddle.rand_dir_set a); cbn [negb] in D.
    + injection D as <- _. exact Ex.
    + destruct (Random.randint 0 (AIPaddle.base_speed a) g) as [[v g2] | ];
        [ | discriminate ].
      destruct (Random.randint 0 1 g2) as [[c g3] | ]; [ | discriminate ].
      injection D as <- _. destruct (c =? 1)%Z; reflexivity.
Qed.

Lemma ai_update_exclusive
  (b : Ball.t) (a a' : AIPaddle.t) (g g' : Random.t) (ev : list Event) :
  Paddle.moving_left (AIPaddle.base a) && Paddle.moving_right (AIPaddle.base a)
  = false ->
  AIPaddle.update b a g = Some (a', g', ev) ->
  Paddle.moving_left (AIPaddle.base a') && Paddle.moving_right (AIPaddle.base a')
  = false.
Proof.
  intros Ex U.
  destruct (AIPaddle.decide b a g) as [[a1 g1] | ] eqn:D.
  - destruct (ai_update_after_decide b a a1 g g1 D)
      as (a2 & ev2 & E & L & Rt & _).
    rewrite E in U. injection U as <- _ _.
    rewrite L, Rt. exact (decide_exclusive b a a1 g g1 D Ex).
  - unfold AIPaddle.update in U. rewrite D in U. discriminate.
Qed.

(** ** The game loop *)

Lemma update_scores_total (ss : list Scorekeeper.t) :
  total_score (fst (World.update_scores ss)) = total_score ss.
Proof.
  induction ss as [ | s ss IH ]; [ reflexivity | ].
  cbn [World.update_scores].
  assert (Sc : Scorekeeper.score (fst (Scorekeeper.update s))
               = Scorekeeper.score s).
  { unfold Scorekeeper.update, Sprite_update.
    destruct (Sprite.changed (sprite s)); reflexivity. }
  destruct (Scorekeeper.update s) as [s1 ev1].
  destruct (World.update_scores ss) as [rest ev2].
  cbn [fst] in *. rewrite !total_score_cons, IH, Sc. reflexivity.
Qed.

(** X20.  The game never raises: in every state of the game a pass of the
    loop returns a state of the game, with as many scorekeepers as before
    and a sum of scores that is one higher when the ball takes a goal and
    unchanged otherwise; scores never go down. *)
Theorem game_pass_never_raises (w : World.t) :
  World.reachable w ->
  exists w' : World.t,
    World.tick w = Some w'
    /\ World.reachable w'
    /\ List.length (World.scores w') = List.length (World.scores w)
    /\ total_score (World.scores w')
       = (total_score (World.scores w)
          + if goal_taken (World.ball w) then 1 else 0)%Z.
Proof.
  intros Rw. pose proof (reachable_ok w Rw) as Ok.
  destruct (tick_spec w Ok) as (w' & T & _ & _).
  exists w'. split; [ exact T | ].
  split; [ exact (World.reach_tick w w' Rw T) | ].
  destruct Ok as (P & _ & S).
  unfold World.tick, World.update_ball in T.
  destruct (ball_update_points (map World.as_paddle (World.paddles w))
              (Ball.mkEnv (World.ball w) (World.scores w) (World.rng w)
                          (World.trace w)))
    as (e2 & E & L & Tot & _).
  - exact S.
  - apply Forall_map. revert P. apply Forall_impl. exact paddle_ok_width.
  - rewrite E in T.
    cbn [World.ball World.paddles World.rng World.scores World.trace] in T.
    destruct (World.update_paddles _ _ _) as [[[os g] ev] | ]; [ | discriminate ].
    pose proof (update_scores_length (Ball.scores e2)) as L'.
    pose proof (update_scores_total (Ball.scores e2)) as T'.
    destruct (World.update_scores (Ball.scores e2)) as [ss evs].
    injection T as <-. cbn [World.scores fst] in *.
    cbn [Ball.self Ball.scores] in L, Tot. split; congruence.
Qed.

Lemma game_pass_never_raises_witness :
  exists w' : World.t,
    World.tick start_world = Some w' /\ World.reachable w'.
Proof.
  destruct (game_pass_never_raises start_world) as (w' & T & Rw' & _).
  - apply World.reach_main with (g := zeros). reflexivity.
  - exists w'. split; assumption.
Defined.

(** X21.  Paddles only move sideways: in every state of the game each paddle
    is 10 high, on the line y = 250 or y = -250, of non-zero width and with
    its hitbox in place, and the ball is 12 by 12. *)
Theorem paddles_stay_on_their_lines (w : World.t) :
  World.reachable w ->
  Forall (fun o =>
            let s := Paddle.base (World.as_paddle o) in
            Sprite.height s = PADDLE_HEIGHT
            /\ (Sprite.y s = 250 \/ Sprite.y s = -250)
            /\ Sprite.width s <> 0%Z
            /\ Sprite.hitbox s
               = Sprite.box (Sprite.width s) (Sprite.height s)
                            (Sprite.x s) (Sprite.y s))
         (World.paddles w)
  /\ Sprite.width (Ball.base (World.ball w)) = BALL_SIZE
  /\ Sprite.height (Ball.base (World.ball w)) = BALL_SIZE.
Proof.
  intros Rw. destruct (reachable_ok w Rw) as (P & B & _).
  split; [ | exact B ].
  revert P. apply Forall_impl. intros o Ok.
  pose proof (paddle_ok_width o Ok) as W. destruct Ok as ((H & Y & S) & _).
  cbv zeta. auto.
Qed.

Lemma paddles_stay_on_their_lines_witness :
  Sprite.width (Ball.base (World.ball start_world)) = BALL_SIZE.
Proof.
  refine (proj1 (proj2 (paddles_stay_on_their_lines start_world _))).
  apply World.reach_main with (g := zeros). reflexivity.
Defined.

Lemma update_paddles_one_intent (b : Ball.t) (os : list World.PaddleObj) :
  Forall one_intent os ->
  forall g os' g' ev,
    World.update_paddles b os g = Some (os', g', ev) ->
    Forall one_intent os'.
Proof.
  induction 1 as [ | o os Ho _ IH ]; intros g os' g' ev U; cbn in U.
  - injection U as <- _ _. constructor.
  - destruct (World.update_paddle b o g) as [[[o1 g1] ev1] | ] eqn:E1;
      [ | discriminate ].
    destruct (World.update_paddles b os g1) as [[[os1 g2] ev2] | ] eqn:E2;
      [ | discriminate ].
    injection U as <- _ _. constructor; [ | exact (IH _ _ _ _ E2) ].
    destruct o as [p | a]; cbn in E1.
    + destruct (PlayerPaddle.update p). injection E1 as <- _ _. exact I.
    + destruct (AIPaddle.update b a g) as [[[a1 g3] ev3] | ] eqn:U1;
        [ | discriminate ].
      injection E1 as <- _ _. cbn in *.
      exact (ai_update_exclusive b a a1 g g3 ev3 Ho U1).
Qed.

(** X22.  The AI paddle never holds both intents: in every state of the
    game, whatever the ball did and whatever the random source yielded, an
    AI paddle has at most one of [moving_left] and [moving_right] set. *)
Theorem ai_never_holds_both_intents (w : World.t) (a : AIPaddle.t) :
  World.reachable w ->
  In (World.AI a) (World.paddles w) ->
  Paddle.moving_left (AIPaddle.base a) && Paddle.moving_right (AIPaddle.base a)
  = false.
Proof.
  intros Rw Hin.
  assert (F : Forall one_intent (World.paddles w)).
  { clear a Hin. induction Rw as [ g w M | w n i _ IH | w w' _ IH T ].
    - destruct (main_spec g) as (w0 & M0 & _ & a0 & P0).
      assert (w0 = w) by congruence. subst w0. rewrite P0.
      unfold World.main in M.
      destruct (Ball.init _ _ _ g); [ | discriminate ].
      injection M as <-. cbn in P0. injection P0 as <-.
      repeat constructor.
    - unfold World.key.
      destruct (update_at n _ (World.paddles w)) as [ ps | ] eqn:U;
        [ | exact IH ].
      cbn. refine (update_at_Forall one_intent _ _ _ _ n IH U).
      intros [p | a0]; auto.
    - unfold World.tick, World.update_ball in T.
      destruct (Ball.update _ _) as [[[] e] | ]; [ | discriminate ].
      cbn [World.ball World.paddles World.rng World.scores World.trace] in T.
      destruct (World.update_paddles _ _ _) as [[[os g] ev] | ] eqn:U;
        [ | discriminate ].
      destruct (World.update_scores _). injection T as <-. cbn.
      exact (update_paddles_one_intent _ _ IH _ _ _ _ U). }
  rewrite Forall_forall in F. exact (F _ Hin).
Qed.

Lemma ai_never_holds_both_intents_witness :
  Paddle.moving_left (AIPaddle.base ai_start)
  && Paddle.moving_right (AIPaddle.base ai_start) = false.
Proof.
  apply (ai_never_holds_both_intents start_world ai_start).
  - apply World.reach_main with (g := zeros). reflexivity.
  - right. left. reflexivity.
Defined.

(** ** Drawing *)

Lemma heading_up : cos (radians 90) = 0 /\ sin (radians 90) = 1.
Proof.
  replace (radians 90) with (PI / 2) by (unfold radians; field).
  split; [ apply cos_PI2 | apply sin_PI2 ].
Qed.

Lemma heading_east : cos (radians (90 - 90)) = 1 /\ sin (radians (90 - 90)) = 0.
Proof.
  replace (radians (90 - 90)) with 0 by (unfold radians; field).
  split; [ apply cos_0 | apply sin_0 ].
Qed.

Lemma heading_down :
  cos (radians (90 - 90 - 90)) = 0 /\ sin (radians (90 - 90 - 90)) = -1.
Proof.
  replace (radians (90 - 90 - 90)) with (- (PI / 2)) by (unfold radians; field).
  rewrite cos_neg, sin_neg, cos_PI2, sin_PI2. split; reflexivity.
Qed.

Lemma heading_west :
  cos (radians (90 - 90 - 90 - 90)) = -1
  /\ sin (radians (90 - 90 - 90 - 90)) = 0.
Proof.
  replace (radians (90 - 90 - 90 - 90)) with (- PI) by (unfold radians; field).
  rewrite cos_neg, sin_neg, cos_PI, sin_PI. split; lra.
Qed.

Lemma heading_up_again :
  cos (radians (90 - 90 - 90 - 90 - 90)) = 0
  /\ sin (radians (90 - 90 - 90 - 90 - 90)) = 1.
Proof.
  replace (radians (90 - 90 - 90 - 90 - 90)) with (- (3 * (PI / 2)))
    by (unfold radians; field).
  rewrite cos_neg, sin_neg, cos_3PI2, sin_3PI2. split; lra.
Qed.

Lemma point_eq (a b c d : R) : a = c -> b = d -> (a, b) = (c, d).
Proof. congruence. Qed.

Lemma draw_rect_spec (hb : Hitbox) (w h : Z) (tu : Turtle.t) :
  Turtle.pen tu = false ->
  let tu' := Turtle.draw_rect hb w h tu in
  Turtle.filled tu' = [rectangle (min_x hb) (min_y hb) (IZR w) (IZR h)]
  /\ Turtle.lines tu' = []
  /\ Turtle.texts tu' = []
  /\ Turtle.pos tu' = (min_x hb, min_y hb)
  /\ cos (radians (Turtle.heading tu')) = 0
  /\ sin (radians (Turtle.heading tu')) = 1
  /\ Turtle.pen tu' = false
  /\ Turtle.fillpath tu' = None.
Proof.
  intros Pen. cbv zeta.
  destruct tu as [p hd pn fp ln fl tx]. cbn in Pen. subst pn.
  destruct heading_up as [C1 S1], heading_east as [C2 S2],
    heading_down as [C3 S3], heading_west as [C4 S4],
    heading_up_again as [C5 S5].
  cbv beta iota zeta delta
    [Turtle.draw_rect Turtle.two_sides Turtle.right Turtle.forward
     Turtle.end_fill Turtle.penup Turtle.pendown Turtle.begin_fill
     Turtle.set_pen Turtle.setheading Turtle.goto Turtle.clear
     Turtle.pos Turtle.heading Turtle.pen Turtle.fillpath Turtle.lines
     Turtle.filled Turtle.texts fst snd app List.length Nat.ltb Nat.leb].
  rewrite C1, S1, C2, S2, C3, S3, C4, S4.
  repeat split; try assumption; try (apply point_eq; ring).
  unfold rectangle. repeat (f_equal; try (apply point_eq; ring)).
Qed.

(** X23.  [Sprite.draw] fills one rectangle and nothing else: with the pen
    up, as every sprite's turtle has it, the canvas afterwards holds exactly
    the closed path from the hitbox's lower left corner, [height] up and
    [width] to the right, no outline and no text, whatever was drawn before;
    the turtle is back at that corner, facing up, pen up. *)
Theorem draw_fills_one_rectangle (s : Sprite.t) (tu : Turtle.t) :
  Turtle.pen tu = false ->
  let tu' := Turtle.render (Sprite.draw s) tu in
  Turtle.filled tu'
  = [rectangle (min_x (Sprite.hitbox s)) (min_y (Sprite.hitbox s))
               (IZR (Sprite.width s)) (IZR (Sprite.height s))]
  /\ Turtle.lines tu' = []
  /\ Turtle.texts tu' = []
  /\ Turtle.pos tu' = (min_x (Sprite.hitbox s), min_y (Sprite.hitbox s))
  /\ cos (radians (Turtle.heading tu')) = 0
  /\ sin (radians (Turtle.heading tu')) = 1
  /\ Turtle.pen tu' = false.
Proof.
  intros Pen. cbv zeta.
  destruct (draw_rect_spec (Sprite.hitbox s) (Sprite.width s)
              (Sprite.height s) tu Pen) as (F & L & T & P & C & S & Pn & _).
  unfold Sprite.draw, Turtle.render. auto 10.
Qed.

Lemma draw_fills_one_rectangle_witness :
  Turtle.filled
    (Turtle.render (Sprite.draw (Sprite.init 12 12 0 0)) Turtle.init)
  = [rectangle (min_x (Sprite.hitbox (Sprite.init 12 12 0 0)))
               (min_y (Sprite.hitbox (Sprite.init 12 12 0 0)))
               (IZR (Sprite.width (Sprite.init 12 12 0 0)))
               (IZR (Sprite.height (Sprite.init 12 12 0 0)))].
Proof.
  exact (proj1 (draw_fills_one_rectangle (Sprite.init 12 12 0 0) Turtle.init
                  eq_refl)).
Defined.

(** X24.  [Sprite.update] puts a changed sprite on the canvas where it is:
    after the update the hitbox is the box of [width] by [height] around
    [(x, y)], the flag is cleared, and the sprite's turtle shows exactly one
    filled polygon, the four corners of that hitbox. *)
Theorem update_draws_sprite_over_hitbox (s : Sprite.t) (tu : Turtle.t) :
  Sprite.changed s = true ->
  Turtle.pen tu = false ->
  let s' := fst (Sprite_update s) in
  let tu' := Turtle.render_all (snd (Sprite_update s)) tu in
  Sprite.hitbox s'
  = Sprite.box (Sprite.width s) (Sprite.height s) (Sprite.x s) (Sprite.y s)
  /\ Sprite.changed s' = false
  /\ Turtle.filled tu' = [corners (Sprite.hitbox s')]
  /\ Turtle.lines tu' = []
  /\ Turtle.pen tu' = false.
Proof.
  intros Ch Pen. cbv zeta. unfold Sprite_update.
  cbn [sprite Sprite_SpriteLike]. rewrite Ch.
  cbn [fst snd Turtle.render_all fold_left].
  change (draw (update_hitbox s))
    with (DrawRect (Sprite.box (Sprite.width s) (Sprite.height s)
                               (Sprite.x s) (Sprite.y s))
                   (Sprite.width s) (Sprite.height s)).
  cbn [Turtle.render].
  destruct (draw_rect_spec
              (Sprite.box (Sprite.width s) (Sprite.height s) (Sprite.x s)
                          (Sprite.y s))
              (Sprite.width s) (Sprite.height s) tu Pen)
    as (F & L & _ & _ & _ & _ & Pn & _).
  split; [ reflexivity | ]. split; [ reflexivity | ].
  split; [ | split; assumption ].
  rewrite F. unfold rectangle, corners, Sprite.box.
  cbn [min_x max_x min_y max_y].
  change (Sprite.hitbox (mark (update_hitbox s) false))
    with (Sprite.box (Sprite.width s) (Sprite.height s)
                     (Sprite.x s) (Sprite.y s)).
  unfold Sprite.box. cbn [min_x max_x min_y max_y].
  repeat (f_equal; try (apply point_eq; field)).
Qed.

Lemma update_draws_sprite_over_hitbox_witness :
  Turtle.filled
    (Turtle.render_all (snd (Sprite_update (Sprite.init 12 12 0 0))) Turtle.init)
  = [corners (Sprite.hitbox (fst (Sprite_update (Sprite.init 12 12 0 0))))].
Proof.
  exact (proj1 (proj2 (proj2
    (update_draws_sprite_over_hitbox (Sprite.init 12 12 0 0) Turtle.init
       eq_refl eq_refl)))).
Defined.

(** ** Key events *)

Lemma handle_sprite (i : PlayerPaddle.Intent) (p : PlayerPaddle.t) :
  Paddle.base (PlayerPaddle.base (PlayerPaddle.handle i p))
  = Paddle.base (PlayerPaddle.base p)
  /\ Paddle.shift (PlayerPaddle.base (PlayerPaddle.handle i p))
     = Paddle.shift (PlayerPaddle.base p).
Proof.
  unfold PlayerPaddle.handle.
  destruct (PlayerPaddle.listening p), i; split; reflexivity.
Qed.

(** X25.  A key event moves nothing by itself, and a tap between two updates
    is lost.  Any key event, on any paddle, leaves position, size, hitbox
    and speed as they are.  With no intent held, a press followed by the
    release of the same key before the next update leaves the paddle
    without intents, and that update does not move it. *)
Theorem tap_between_updates_is_lost (p : PlayerPaddle.t) :
  (forall i : PlayerPaddle.Intent,
      let q := PlayerPaddle.handle i p in
      Sprite.x (Paddle.base (PlayerPaddle.base q))
      = Sprite.x (Paddle.base (PlayerPaddle.base p))
      /\ Sprite.y (Paddle.base (PlayerPaddle.base q))
         = Sprite.y (Paddle.base (PlayerPaddle.base p))
      /\ Sprite.width (Paddle.base (PlayerPaddle.base q))
         = Sprite.width (Paddle.base (PlayerPaddle.base p))
      /\ Sprite.height (Paddle.base (PlayerPaddle.base q))
         = Sprite.height (Paddle.base (PlayerPaddle.base p))
      /\ Sprite.hitbox (Paddle.base (PlayerPaddle.base q))
         = Sprite.hitbox (Paddle.base (PlayerPaddle.base p))
      /\ Paddle.shift (PlayerPaddle.base q)
         = Paddle.shift (PlayerPaddle.base p))
  /\ (Paddle.moving_left (PlayerPaddle.base p) = false ->
      Paddle.moving_right (PlayerPaddle.base p) = false ->
      forall press release : PlayerPaddle.Intent,
        (press, release) = (PlayerPaddle.StartLeft, PlayerPaddle.StopLeft)
        \/ (press, release)
           = (PlayerPaddle.StartRight, PlayerPaddle.StopRight) ->
        let p2 := PlayerPaddle.handle release (PlayerPaddle.handle press p) in
        let p3 := fst (PlayerPaddle.update p2) in
        Paddle.moving_left (PlayerPaddle.base p2) = false
        /\ Paddle.moving_right (PlayerPaddle.base p2) = false
        /\ Sprite.x (Paddle.base (PlayerPaddle.base p3))
           = Sprite.x (Paddle.base (PlayerPaddle.base p))).
Proof.
  split.
  - intros i. cbv zeta. destruct (handle_sprite i p) as (S & Sh).
    rewrite S, Sh. repeat split.
  - intros L R press release Tap. cbv zeta.
    assert (F : Paddle.moving_left
                  (PlayerPaddle.base
                     (PlayerPaddle.handle release
                        (PlayerPaddle.handle press p)))
                = false
                /\ Paddle.moving_right
                     (PlayerPaddle.base
                        (PlayerPaddle.handle release
                           (PlayerPaddle.handle press p))) = false).
    { unfold PlayerPaddle.handle.
      destruct Tap as [E | E]; injection E as -> ->;
        destruct (PlayerPaddle.listening p) eqn:Li; cbn; rewrite ?Li; cbn;
        auto. }
    destruct F as [L2 R2].
    pose proof (proj1 (handle_sprite press p)) as S1.
    pose proof (proj1 (handle_sprite release (PlayerPaddle.handle press p)))
      as S2.
    rewrite S1 in S2.
    repeat split; try assumption.
    unfold PlayerPaddle.update.
    destruct (Paddle.update _) as [b ev] eqn:U. cbn [fst PlayerPaddle.base].
    change b with (fst (b, ev)). rewrite <- U, update_x.
    unfold Paddle.steer. rewrite L2, R2, S2. reflexivity.
Qed.

Lemma tap_between_updates_is_lost_witness :
  let p1 := fst (PlayerPaddle.update player_start) in
  let p2 := PlayerPaddle.handle PlayerPaddle.StopLeft
              (PlayerPaddle.handle PlayerPaddle.StartLeft p1) in
  Sprite.x (Paddle.base (PlayerPaddle.base (fst (PlayerPaddle.update p2))))
  = Sprite.x (Paddle.base (PlayerPaddle.base p1)).
Proof.
  cbv zeta.
  refine (proj2 (proj2
    (proj2 (tap_between_updates_is_lost (fst (PlayerPaddle.update player_start)))
       eq_refl eq_refl PlayerPaddle.StartLeft PlayerPaddle.StopLeft
       (or_introl eq_refl)))).
Defined.
